(** * Secure-index search: the Z-IDX style index, its trapdoors, the store
      and the prototype client

    The development follows the repository layout:
    - [Bytes], [Sha256]: byte strings and the keyed hash the clients use;
    - [Tokenizer], [Indexer]: tokens, trapdoors, bit positions, the index
      builder and the matcher (packages [indexer] and [searcher]);
    - [Store]: the server-side docID -> index mapping (package [server]);
    - [Go], [Fake]: results of Go calls, and the [FakeServerClient] of the
      client tests;
    - [GoStrings], [GoPath], [Float64]: [strconv], [strings], [path] and
      float64 as the client calls them;
    - [Client]: the prototype client ([CreateClient], [AddFile],
      [getFile], [searchWordHelper], [SearchWord], [SearchWordNaive]).

    The sources hold the client, its tests and the fake server; the
    packages [indexer], [searcher], [server] and [util] are known by their
    callers only, and are modelled from the specification. *)

From Stdlib Require Import ZArith Lia Strings.Byte Ascii String List Bool.
From Stdlib Require Import DecimalString DecimalZ DecimalPos SpecFloat.
From stdpp Require Import gmap strings list fin_maps sorting.

Local Open Scope Z_scope.

(** ** Byte strings *)

Module Bytes.

Abbreviation bytes := (list byte).

#[global] Instance byte_eq_dec : EqDecision byte := Byte.byte_eq_dec.

Definition byte_to_Z (b : byte) : Z := Z.of_N (Byte.to_N b).

Definition byte_of_Z (z : Z) : byte :=
  match Byte.of_N (Z.to_N (z mod 256)) with
  | Some b => b
  | None => x00
  end.

(** A byte string read as a big-endian unsigned integer. *)
Definition be_to_Z (bs : bytes) : Z :=
  fold_left (fun acc b => acc * 256 + byte_to_Z b) bs 0.

Lemma byte_to_Z_range b : 0 <= byte_to_Z b < 256.
Proof.
  unfold byte_to_Z. pose proof (Byte.to_N_bounded b) as Hb. lia.
Qed.

Lemma be_to_Z_fold_nonneg bs acc :
  0 <= acc -> 0 <= fold_left (fun a b => a * 256 + byte_to_Z b) bs acc.
Proof.
  revert acc. induction bs as [|b bs IH]; intros acc Hacc; simpl; [lia|].
  apply IH. pose proof (byte_to_Z_range b). lia.
Qed.

Lemma be_to_Z_nonneg bs : 0 <= be_to_Z bs.
Proof. apply be_to_Z_fold_nonneg. lia. Qed.

End Bytes.
Import Bytes.

(** ** HMAC-SHA-256

    The clients create their builder with [sha256.New]; the keyed hash is
    the one the Go standard library computes from it.  The theorems below
    are stated for an arbitrary keyed function; this instance runs the
    model on concrete inputs. *)

Module Sha256.

Definition mask32 : Z := 0xffffffff.
Definition add32 (x y : Z) : Z := Z.land (x + y) mask32.
Definition rotr (n x : Z) : Z :=
  Z.lor (Z.shiftr x n) (Z.land (Z.shiftl x (32 - n)) mask32).
Definition Ch (x y z : Z) : Z :=
  Z.lxor (Z.land x y) (Z.land (Z.lxor x mask32) z).
Definition Maj (x y z : Z) : Z :=
  Z.lxor (Z.lxor (Z.land x y) (Z.land x z)) (Z.land y z).
Definition Sigma0 (x : Z) : Z := Z.lxor (Z.lxor (rotr 2 x) (rotr 13 x)) (rotr 22 x).
Definition Sigma1 (x : Z) : Z := Z.lxor (Z.lxor (rotr 6 x) (rotr 11 x)) (rotr 25 x).
Definition sigma0 (x : Z) : Z := Z.lxor (Z.lxor (rotr 7 x) (rotr 18 x)) (Z.shiftr x 3).
Definition sigma1 (x : Z) : Z := Z.lxor (Z.lxor (rotr 17 x) (rotr 19 x)) (Z.shiftr x 10).

(** The round constants are the first 32 bits of the fractional parts of
    the cube roots of the first 64 primes, the initial state those of the
    square roots of the first 8 primes. *)
Definition is_prime (n : Z) : bool :=
  forallb (fun d => negb (Z.eqb (n mod d) 0)) (seqZ 2 (n - 2)).

Definition primes (bound : Z) : list Z := List.filter is_prime (seqZ 2 (bound - 1)).

(** The largest r below 2^bits with r^3 <= n. *)
Fixpoint cube_root (bits : nat) (n r : Z) : Z :=
  match bits with
  | O => r
  | S bits' =>
      let r' := r + 2 ^ Z.of_nat bits' in
      if Z.leb (r' * r' * r') n then cube_root bits' n r' else cube_root bits' n r
  end.

Definition K : list Z :=
  Eval vm_compute in
    map (fun p => Z.land (cube_root 36 (p * 2 ^ 96) 0) mask32) (primes 311).

Definition state : Type := Z * Z * Z * Z * Z * Z * Z * Z.

Definition H0 : state :=
  Eval vm_compute in
    match map (fun p => Z.land (Z.sqrt (p * 2 ^ 64)) mask32) (primes 19) with
    | [a; b; c; d; e; f; g; h] => (a, b, c, d, e, f, g, h)
    | _ => (0, 0, 0, 0, 0, 0, 0, 0)
    end.

Example K_ends : (length K, K !! 0%nat, K !! 63%nat) = (64%nat, Some 0x428a2f98, Some 0xc67178f2).
Proof. reflexivity. Qed.

Definition word_bytes (x : Z) : bytes :=
  [byte_of_Z (Z.shiftr x 24); byte_of_Z (Z.shiftr x 16);
   byte_of_Z (Z.shiftr x 8); byte_of_Z x].

(** Message, the byte 0x80, zeros up to 56 modulo 64, the bit length on
    eight bytes. *)
Definition pad (msg : bytes) : bytes :=
  let l := Z.of_nat (length msg) in
  msg ++ [x80] ++ replicate (Z.to_nat ((55 - l) mod 64)) x00
      ++ word_bytes (Z.shiftr (8 * l) 32) ++ word_bytes (8 * l).

Fixpoint words (bs : bytes) : list Z :=
  match bs with
  | a :: b :: c :: d :: rest => be_to_Z [a; b; c; d] :: words rest
  | _ => []
  end.

Fixpoint blocks (fuel : nat) (ws : list Z) : list (list Z) :=
  match fuel, ws with
  | S fuel', _ :: _ => take 16 ws :: blocks fuel' (drop 16 ws)
  | _, _ => []
  end.

(** The message schedule, newest word first. *)
Fixpoint extend (n : nat) (ws : list Z) : list Z :=
  match n with
  | O => ws
  | S n' =>
      let w := add32 (add32 (sigma1 (nth 1 ws 0)) (nth 6 ws 0))
                     (add32 (sigma0 (nth 14 ws 0)) (nth 15 ws 0)) in
      extend n' (w :: ws)
  end.

Definition schedule (block : list Z) : list Z := rev (extend 48 (rev block)).

Definition round (s : state) (kw : Z * Z) : state :=
  let '(a, b, c, d, e, f, g, h) := s in
  let t1 := add32 (add32 (add32 h (Sigma1 e)) (add32 (Ch e f g) (fst kw))) (snd kw) in
  let t2 := add32 (Sigma0 a) (Maj a b c) in
  (add32 t1 t2, a, b, c, add32 d t1, e, f, g).

Definition compress (s : state) (block : list Z) : state :=
  let '(a, b, c, d, e, f, g, h) := s in
  let '(a', b', c', d', e', f', g', h') :=
    fold_left round (combine K (schedule block)) s in
  (add32 a a', add32 b b', add32 c c', add32 d d',
   add32 e e', add32 f f', add32 g g', add32 h h').

Definition digest (s : state) : bytes :=
  let '(a, b, c, d, e, f, g, h) := s in
  word_bytes a ++ word_bytes b ++ word_bytes c ++ word_bytes d ++
  word_bytes e ++ word_bytes f ++ word_bytes g ++ word_bytes h.

Definition sum256 (msg : bytes) : bytes :=
  let ws := words (pad msg) in
  digest (fold_left compress (blocks (length ws) ws) H0).

Definition xor_byte (c : Z) (b : byte) : byte := byte_of_Z (Z.lxor (byte_to_Z b) c).

(** HMAC over SHA-256, block size 64. *)
Definition hmac (key msg : bytes) : bytes :=
  let k0 := if decide (64 < length key)%nat then sum256 key else key in
  let k := k0 ++ replicate (64 - length k0) x00 in
  sum256 (map (xor_byte 0x5c) k ++ sum256 (map (xor_byte 0x36) k ++ msg)).

Definition size : nat := 32.

Example sum256_abc :
  be_to_Z (sum256 (list_byte_of_string "abc"))
  = 0xba7816bf8f01cfea414140de5dae2223b00361a396177a9cb410ff61f20015ad.
Proof. vm_compute. reflexivity. Qed.

Example sum256_empty :
  be_to_Z (sum256 [])
  = 0xe3b0c44298fc1c149afbf4c8996fb92427ae41e4649b934ca495991b7852b855.
Proof. vm_compute. reflexivity. Qed.

Example sum256_two_blocks :
  be_to_Z (sum256 (replicate 100 x61))
  = 0x2816597888e4a0d3a36b82b83316ab32680eb8f00f8cd3b904d681246d285a0e.
Proof. vm_compute. reflexivity. Qed.

Example hmac_rfc4231_2 :
  be_to_Z (hmac (list_byte_of_string "Jefe")
                (list_byte_of_string "what do ya want for nothing?"))
  = 0x5bdcc146bf60754e6a042426089575c75a003f089d2739839dec58b964ec3843.
Proof. vm_compute. reflexivity. Qed.

Example hmac_long_key :
  be_to_Z (hmac (replicate 100 x6b) (list_byte_of_string "msg"))
  = 0xbd56a1782c2830e8abc6ed866a57a1230661e650b84c62f7ee3accc5fa5af491.
Proof. vm_compute. reflexivity. Qed.

Lemma length_digest s : length (digest s) = size.
Proof. destruct s as [[[[[[[a b] c] d] e] f] g] h]. reflexivity. Qed.

Lemma length_sum256 msg : length (sum256 msg) = size.
Proof. unfold sum256. apply length_digest. Qed.

Lemma length_hmac key msg : length (hmac key msg) = size.
Proof. unfold hmac. apply length_sum256. Qed.

End Sha256.

(** ** Tokenizer *)

Module Tokenizer.

(** ASCII whitespace: space, and the control characters 9 (tab) to 13
    (carriage return). *)
Definition is_space (a : ascii) : bool :=
  let n := nat_of_ascii a in
  (Nat.eqb n 32 || (Nat.leb 9 n && Nat.leb n 13))%bool.

(** The word read so far is kept reversed in [cur]. *)
Definition flush (cur : list ascii) : list string :=
  match cur with
  | [] => []
  | _ => [string_of_list_ascii (rev cur)]
  end.

Fixpoint scanWords (cur : list ascii) (s : string) : list string :=
  match s with
  | EmptyString => flush cur
  | String a s' =>
      if is_space a then flush cur ++ scanWords [] s'
      else scanWords (a :: cur) s'
  end.

(** Modelled from the spec: the tokenizer of the absent indexer package,
    "the stream is tokenized by splitting on ASCII whitespace; tokens are
    emitted as-is". *)
Definition tokens (content : string) : list string := scanWords [] content.

Example tokens_test_file :
  tokens "This is a test file." = ["This"; "is"; "a"; "test"; "file."]%string.
Proof. reflexivity. Qed.

Example tokens_runs_of_blanks :
  tokens (String (ascii_of_nat 9) " a  b ") = ["a"; "b"]%string.
Proof. reflexivity. Qed.

End Tokenizer.
Import Tokenizer.

(** ** The indexer: trapdoors, bit positions, builder, matcher *)

Module Indexer.

(** The builder as the clients construct it:
    [CreateSecureIndexBuilder(sha256.New, ms, salts, size)]. *)
Record SecureIndexBuilder := mkSecureIndexBuilder {
  sib_ms : bytes;
  sib_salts : list bytes;
  sib_size : Z
}.

Record SecureIndex := mkSecureIndex {
  si_docID : Z;
  si_bits : list bool
}.

#[global] Instance SecureIndex_eq_dec : EqDecision SecureIndex.
Proof. solve_decision. Defined.

(** The number of bits set in an index. *)
Fixpoint popcount (bits : list bool) : nat :=
  match bits with
  | [] => 0
  | b :: rest => ((if b then 1 else 0) + popcount rest)%nat
  end.

Section WithPRF.

(** The keyed hash the builder is created with (the tests pass
    [sha256.New]); the folder's expected number of unique words per
    document; the byte encoding of a (docID, counter) pair that padding
    feeds to the PRF. *)
Variable prf : bytes -> bytes -> bytes.
Variable numUniqWords : Z.
Variable padWord : Z -> nat -> bytes.

(** Modelled from the spec: the constructor of the absent indexer
    package, with the arguments its callers pass; the hash argument is the
    section's [prf]. *)
Definition CreateSecureIndexBuilder
    (masterSecret : bytes) (salts : list bytes) (size : Z) : SecureIndexBuilder :=
  {| sib_ms := masterSecret; sib_salts := salts; sib_size := size |}.

(** Modelled from the spec: the trapdoor function of the absent indexer
    package, "t_i = prf(s_i, prf(MS, w))": one inner call keyed by the
    master secret, then one outer call per salt, in the salts' order. *)
Definition trapdoorOf (sib : SecureIndexBuilder) (msg : bytes) : list bytes :=
  let inner := prf (sib_ms sib) msg in
  map (fun s => prf s inner) (sib_salts sib).

(** Modelled from the spec: [ComputeTrapdoors] of the absent indexer
    package, the trapdoor of the word's bytes, "treated opaquely". *)
Definition ComputeTrapdoors (sib : SecureIndexBuilder) (word : string) : list bytes :=
  trapdoorOf sib (list_byte_of_string word).

(** Modelled from the spec: the bit-position mapping, "interpreted as a
    big-endian unsigned integer, reduced modulo M". *)
Definition bitPosition (M : Z) (t : bytes) : nat := Z.to_nat (be_to_Z t mod M).

(** [bits[b] <- 1] for one codeword, for a trapdoor, for several. *)
Definition setBit (M : Z) (bits : list bool) (t : bytes) : list bool :=
  <[bitPosition M t := true]> bits.

Definition addTrapdoor (M : Z) (bits : list bool) (td : list bytes) : list bool :=
  fold_left (setBit M) td bits.

Definition addTrapdoors (M : Z) (bits : list bool) (tds : list (list bytes)) : list bool :=
  fold_left (addTrapdoor M) tds bits.

(** Modelled from the spec: step 1 of the absent builder, "the set U of
    unique tokens in the document", in the order of first occurrence. *)
Definition uniqueTokens (content : string) : list string :=
  remove_dups (tokens content).

(** Modelled from the spec: the number of synthetic trapdoors of the
    absent builder, "pad = max(0, n - |U|)". *)
Definition padCount (u : nat) : nat :=
  Z.to_nat (Z.max 0 (numUniqWords - Z.of_nat u)).

(** Modelled from the spec: a synthetic trapdoor of the absent builder,
    "generated by PRF'ing (MS, docID, counter) ... through the same
    bit-mapping": the trapdoor of the synthetic word [padWord docID counter]. *)
Definition padTrapdoor (sib : SecureIndexBuilder) (docID : Z) (counter : nat) : list bytes :=
  trapdoorOf sib (padWord docID counter).

Definition addWords (sib : SecureIndexBuilder) (bits : list bool) (ws : list string)
    : list bool :=
  addTrapdoors (sib_size sib) bits (map (ComputeTrapdoors sib) ws).

(** The synthetic trapdoors of counters 0 .. pad-1. *)
Definition padTrapdoors (sib : SecureIndexBuilder) (docID : Z) (pad : nat)
    : list (list bytes) :=
  map (padTrapdoor sib docID) (seq 0 pad).

Definition addPadding (sib : SecureIndexBuilder) (docID : Z) (bits : list bool)
    (pad : nat) : list bool :=
  addTrapdoors (sib_size sib) bits (padTrapdoors sib docID pad).

(** Modelled from the spec: the index builder of the absent indexer
    package (procedure steps 1 to 5): the unique tokens, a zeroed array
    of M bits, the bits of every token's trapdoor, then the blind
    padding with counters 0 .. pad-1.  The declared [length] does not
    steer tokenization ("tokenization proceeds on whatever was read"). *)
Definition BuildSecureIndex (sib : SecureIndexBuilder)
    (docID : Z) (content : string) (length : Z) : SecureIndex :=
  let U := uniqueTokens content in
  let bits0 := replicate (Z.to_nat (sib_size sib)) false in
  let bits1 := addWords sib bits0 U in
  let bits2 := addPadding sib docID bits1 (padCount (List.length U)) in
  {| si_docID := docID; si_bits := bits2 |}.

(** The bit of a codeword, its position taken modulo the index's own
    length. *)
Definition testBit (bits : list bool) (t : bytes) : bool :=
  match bits !! bitPosition (Z.of_nat (List.length bits)) t with
  | Some b => b
  | None => false
  end.

(** Modelled from the spec: the matcher [SearchSecureIndex] of the absent
    searcher package, "an index matches iff for every i, bits[b_i] = 1";
    [forallb] stops at the first zero bit. *)
Definition SearchSecureIndex (index : SecureIndex) (trapdoors : list bytes) : bool :=
  forallb (testBit (si_bits index)) trapdoors.

(** *** Basic facts about the bit array *)

Lemma bitPosition_lt M t : 0 < M -> (bitPosition M t < Z.to_nat M)%nat.
Proof.
  intros HM. unfold bitPosition.
  pose proof (Z.mod_pos_bound (be_to_Z t) M HM). lia.
Qed.

Lemma length_setBit M bits t : List.length (setBit M bits t) = List.length bits.
Proof. unfold setBit. apply length_insert. Qed.

Lemma length_addTrapdoor M td : forall bits,
  List.length (addTrapdoor M bits td) = List.length bits.
Proof.
  unfold addTrapdoor. induction td as [|t td IH]; intros bits; simpl; [done|].
  rewrite IH. apply length_setBit.
Qed.

Lemma setBit_keeps M bits t i :
  bits !! i = Some true -> setBit M bits t !! i = Some true.
Proof.
  intros Hi. unfold setBit.
  destruct (decide (bitPosition M t = i)) as [->|Hne].
  - apply list_lookup_insert_eq. by eapply lookup_lt_Some.
  - by rewrite list_lookup_insert_ne.
Qed.

Lemma addTrapdoor_keeps M td : forall bits i,
  bits !! i = Some true -> addTrapdoor M bits td !! i = Some true.
Proof.
  unfold addTrapdoor. induction td as [|t td IH]; intros bits i Hi; simpl; [done|].
  apply IH. by apply setBit_keeps.
Qed.

Lemma addTrapdoor_sets M td : forall bits t,
  t ∈ td -> (bitPosition M t < List.length bits)%nat ->
  addTrapdoor M bits td !! bitPosition M t = Some true.
Proof.
  induction td as [|t' td IH]; intros bits t Hin Hlt.
  - by apply elem_of_nil in Hin.
  - apply elem_of_cons in Hin as [->|Hin]; cbn [addTrapdoor fold_left].
    + apply (addTrapdoor_keeps M td). unfold setBit.
      by apply list_lookup_insert_eq.
    + apply (IH (setBit M bits t') t Hin). by rewrite length_setBit.
Qed.

Lemma length_addTrapdoors M tds : forall bits,
  List.length (addTrapdoors M bits tds) = List.length bits.
Proof.
  unfold addTrapdoors. induction tds as [|td tds IH]; intros bits; simpl; [done|].
  rewrite IH. apply length_addTrapdoor.
Qed.

Lemma addTrapdoors_keeps M tds : forall bits i,
  bits !! i = Some true -> addTrapdoors M bits tds !! i = Some true.
Proof.
  unfold addTrapdoors. induction tds as [|td tds IH]; intros bits i Hi; simpl; [done|].
  apply IH. by apply addTrapdoor_keeps.
Qed.

Lemma addTrapdoors_sets M tds : forall bits td t,
  td ∈ tds -> t ∈ td -> (bitPosition M t < List.length bits)%nat ->
  addTrapdoors M bits tds !! bitPosition M t = Some true.
Proof.
  induction tds as [|td' tds IH]; intros bits td t Htd Ht Hlt.
  - by apply elem_of_nil in Htd.
  - apply elem_of_cons in Htd as [->|Htd]; cbn [addTrapdoors fold_left].
    + apply (addTrapdoors_keeps M tds). by apply addTrapdoor_sets.
    + apply (IH (addTrapdoor M bits td') td t Htd Ht).
      by rewrite length_addTrapdoor.
Qed.

(** A bit is set after the insertions only if it was set before or is the
    position of one of the inserted codewords. *)
Lemma setBit_origin M bits t i :
  setBit M bits t !! i = Some true ->
  bits !! i = Some true \/ bitPosition M t = i.
Proof.
  unfold setBit. intros Hi.
  destruct (decide (bitPosition M t = i)) as [Heq|Hne]; [by right|].
  left. by rewrite list_lookup_insert_ne in Hi.
Qed.

Lemma addTrapdoor_origin M td : forall bits i,
  addTrapdoor M bits td !! i = Some true ->
  bits !! i = Some true \/ exists t, t ∈ td /\ bitPosition M t = i.
Proof.
  induction td as [|t td IH]; intros bits i Hi; [by left|].
  cbn [addTrapdoor fold_left] in Hi. apply IH in Hi as [Hi|(t' & Hin & Hpos)].
  - apply setBit_origin in Hi as [Hi|Hi]; [by left|].
    right. exists t. split; [apply list_elem_of_here|done].
  - right. exists t'. split; [by apply list_elem_of_further|done].
Qed.

Lemma addTrapdoors_origin M tds : forall bits i,
  addTrapdoors M bits tds !! i = Some true ->
  bits !! i = Some true \/
  exists td t, td ∈ tds /\ t ∈ td /\ bitPosition M t = i.
Proof.
  induction tds as [|td tds IH]; intros bits i Hi; [by left|].
  cbn [addTrapdoors fold_left] in Hi. apply IH in Hi as [Hi|(td' & t & Htd & Ht & Hpos)].
  - apply addTrapdoor_origin in Hi as [Hi|(t & Ht & Hpos)]; [by left|].
    right. exists td, t. split; [apply list_elem_of_here|done].
  - right. exists td', t. split; [by apply list_elem_of_further|done].
Qed.

Lemma lookup_replicate_false (m i : nat) : replicate m false !! i <> Some true.
Proof. intros [H _]%lookup_replicate. discriminate. Qed.

(** Setting one bit raises the popcount by at most one. *)
Lemma popcount_insert_true bits : forall i,
  (popcount (<[i:=true]> bits) <= S (popcount bits))%nat.
Proof.
  induction bits as [|b bits IH]; intros i; simpl; [lia|].
  destruct i as [|i]; simpl.
  - destruct b; lia.
  - specialize (IH i). lia.
Qed.

Lemma popcount_addTrapdoor M td : forall bits,
  (popcount (addTrapdoor M bits td) <= popcount bits + List.length td)%nat.
Proof.
  induction td as [|t td IH]; intros bits; cbn [addTrapdoor fold_left List.length]; [lia|].
  specialize (IH (setBit M bits t)). unfold addTrapdoor in IH.
  pose proof (popcount_insert_true bits (bitPosition M t)) as Hs.
  unfold setBit in IH |- *. lia.
Qed.

Lemma popcount_replicate_false m : popcount (replicate m false) = 0%nat.
Proof. induction m as [|m IH]; simpl; [done|]. by rewrite IH. Qed.

Lemma length_trapdoorOf sib msg :
  List.length (trapdoorOf sib msg) = List.length (sib_salts sib).
Proof. unfold trapdoorOf. by rewrite length_map. Qed.

(** The index length is exactly M bits regardless of the content. *)
Lemma length_BuildSecureIndex sib docID content len :
  List.length (si_bits (BuildSecureIndex sib docID content len))
  = Z.to_nat (sib_size sib).
Proof.
  unfold BuildSecureIndex, addPadding, addWords. cbn [si_bits].
  by rewrite !length_addTrapdoors, length_replicate.
Qed.

Lemma popcount_addTrapdoors M k tds :
  Forall (fun td => List.length td = k) tds -> forall bits,
  (popcount (addTrapdoors M bits tds) <= popcount bits + List.length tds * k)%nat.
Proof.
  induction 1 as [|td tds Hk _ IH]; intros bits;
    cbn [addTrapdoors fold_left List.length]; [lia|].
  specialize (IH (addTrapdoor M bits td)). unfold addTrapdoors in IH.
  pose proof (popcount_addTrapdoor M td bits). lia.
Qed.

Lemma testBit_true bits M t :
  List.length bits = Z.to_nat M -> 0 < M ->
  bits !! bitPosition M t = Some true -> testBit bits t = true.
Proof.
  intros Hlen HM Hbit. unfold testBit.
  rewrite Hlen, Z2Nat.id by lia. by rewrite Hbit.
Qed.

(** Every codeword of every token of the document has its bit set. *)
Lemma BuildSecureIndex_word_bits sib docID content len w t :
  0 < sib_size sib -> w ∈ tokens content -> t ∈ ComputeTrapdoors sib w ->
  si_bits (BuildSecureIndex sib docID content len) !! bitPosition (sib_size sib) t
  = Some true.
Proof.
  intros HM Hw Ht. unfold BuildSecureIndex, addPadding, addWords. cbn [si_bits].
  apply addTrapdoors_keeps.
  apply (addTrapdoors_sets _ _ _ (ComputeTrapdoors sib w)); [|done|].
  - apply list_elem_of_fmap. exists w. split; [done|].
    unfold uniqueTokens. by apply elem_of_remove_dups.
  - rewrite length_replicate. by apply bitPosition_lt.
Qed.

Lemma SearchSecureIndex_member sib docID content len w :
  0 < sib_size sib -> w ∈ tokens content ->
  SearchSecureIndex (BuildSecureIndex sib docID content len) (ComputeTrapdoors sib w)
  = true.
Proof.
  intros HM Hw. unfold SearchSecureIndex. apply forallb_forall.
  intros t Ht%list_elem_of_In.
  apply (testBit_true _ (sib_size sib)); [apply length_BuildSecureIndex|done|].
  by apply BuildSecureIndex_word_bits with w.
Qed.

(** *** The claims about the trapdoor function and the builder *)

(** C4: [ComputeTrapdoors w] is the ordered tuple whose i-th element is
    [prf s_i (prf MS w)]: the PRF keyed by the master secret is applied to
    the word, then the PRF keyed by each salt, in order, is applied to
    that inner result.  There is one element per salt, and the i-th
    element is computed from the i-th salt alone. *)
Theorem ComputeTrapdoors_two_stage (sib : SecureIndexBuilder) (w : string) :
  ComputeTrapdoors sib w
  = map (fun s => prf s (prf (sib_ms sib) (list_byte_of_string w))) (sib_salts sib)
  /\ List.length (ComputeTrapdoors sib w) = List.length (sib_salts sib)
  /\ forall i : nat,
       ComputeTrapdoors sib w !! i
       = option_map (fun s => prf s (prf (sib_ms sib) (list_byte_of_string w)))
                    (sib_salts sib !! i).
Proof.
  split; [reflexivity|]. split; [apply length_trapdoorOf|].
  intros i. unfold ComputeTrapdoors, trapdoorOf. apply list_lookup_fmap.
Qed.

(** The bits of a built index: a position holds a one exactly when it is
    the position of a codeword of a token of the document, or of a
    codeword of the synthetic trapdoor of one of the counters
    0 .. pad-1, where pad = max(0, n - |U|). *)
Lemma BuildSecureIndex_bit sib docID content len (i : nat) :
  0 < sib_size sib ->
  si_bits (BuildSecureIndex sib docID content len) !! i = Some true <->
  (exists w t, w ∈ uniqueTokens content /\ t ∈ ComputeTrapdoors sib w
               /\ bitPosition (sib_size sib) t = i)
  \/ (exists (counter : nat) t,
        (counter < padCount (List.length (uniqueTokens content)))%nat
        /\ t ∈ padTrapdoor sib docID counter
        /\ bitPosition (sib_size sib) t = i).
Proof.
  intros HM. unfold BuildSecureIndex, addPadding, addWords. cbn [si_bits]. split.
  - intros [Hwords|(td & t & Htd & Ht & Hpos)]%addTrapdoors_origin.
    + apply addTrapdoors_origin in Hwords as [Hinit|(td & t & Htd & Ht & Hpos)].
      * by apply lookup_replicate_false in Hinit.
      * apply list_elem_of_fmap in Htd as (w & -> & Hw). left. by exists w, t.
    + apply list_elem_of_fmap in Htd as (counter & -> & Hc%elem_of_seq).
      right. exists counter, t. split; [lia|done].
  - intros [(w & t & Hw & Ht & <-)|(counter & t & Hc & Ht & <-)].
    + apply addTrapdoors_keeps.
      apply (addTrapdoors_sets _ _ _ (ComputeTrapdoors sib w)); [|done|].
      * apply list_elem_of_fmap. by exists w.
      * rewrite length_replicate. by apply bitPosition_lt.
    + apply (addTrapdoors_sets _ _ _ (padTrapdoor sib docID counter)); [|done|].
      * apply list_elem_of_fmap. exists counter. split; [done|].
        apply elem_of_seq. lia.
      * rewrite !length_addTrapdoors, length_replicate. by apply bitPosition_lt.
Qed.

(** C5: the index is a function of (MS, salts, M, n, docID, content)
    alone.  Two builders that hold the same master secret, salts and size
    build the same index for a docID and a content, whatever length is
    declared to each; the index carries the docID and has M bits; and
    which of them are set is fixed by that tuple, with no other input:
    for M > 0 a position is set exactly when it is the position
    (big-endian value modulo M) of a codeword [prf s (prf MS msg)], s one
    of the salts, where msg is a unique token of the content or the
    encoding of (docID, counter) for one of the counters 0 .. pad-1,
    pad = max(0, n - |U|): the padding is driven by the counter. *)
Theorem BuildSecureIndex_deterministic (sibA sibB : SecureIndexBuilder)
    (docID : Z) (content : string) (lenA lenB : Z) :
  sib_ms sibA = sib_ms sibB ->
  sib_salts sibA = sib_salts sibB ->
  sib_size sibA = sib_size sibB ->
  let MS := sib_ms sibA in
  let salts := sib_salts sibA in
  let M := sib_size sibA in
  let U := remove_dups (tokens content) in
  let pad := Z.to_nat (Z.max 0 (numUniqWords - Z.of_nat (List.length U))) in
  let codewords (msg : bytes) := map (fun s => prf s (prf MS msg)) salts in
  let index := BuildSecureIndex sibB docID content lenB in
  BuildSecureIndex sibA docID content lenA = index
  /\ si_docID index = docID
  /\ List.length (si_bits index) = Z.to_nat M
  /\ forall i : nat, 0 < M ->
       si_bits index !! i = Some true <->
       (exists w t, w ∈ U /\ t ∈ codewords (list_byte_of_string w)
                    /\ Z.to_nat (be_to_Z t mod M) = i)
       \/ (exists (counter : nat) t,
             (counter < pad)%nat /\ t ∈ codewords (padWord docID counter)
             /\ Z.to_nat (be_to_Z t mod M) = i).
Proof.
  destruct sibA as [msA saltsA sizeA], sibB as [msB saltsB sizeB]. cbn.
  intros -> -> ->.
  split; [reflexivity|]. split; [reflexivity|].
  split; [apply (length_BuildSecureIndex (mkSecureIndexBuilder msB saltsB sizeB)
                    docID content lenB)|].
  intros i HM.
  apply (BuildSecureIndex_bit (mkSecureIndexBuilder msB saltsB sizeB)
           docID content lenB i HM).
Qed.

(** The index does not depend on the declared length either. *)
Lemma BuildSecureIndex_length_irrelevant sib docID content len1 len2 :
  BuildSecureIndex sib docID content len1 = BuildSecureIndex sib docID content len2.
Proof. reflexivity. Qed.

Lemma length_padTrapdoors sib docID pad :
  List.length (padTrapdoors sib docID pad) = pad.
Proof. unfold padTrapdoors. by rewrite length_map, length_seq. Qed.

Lemma elem_of_padTrapdoors sib docID pad td :
  td ∈ padTrapdoors sib docID pad <->
  exists c : nat, (c < pad)%nat /\ td = padTrapdoor sib docID c.
Proof.
  unfold padTrapdoors. rewrite list_elem_of_fmap. split.
  - intros (c & -> & Hc%elem_of_seq). exists c. split; [lia|done].
  - intros (c & Hc & ->). exists c. split; [done|]. apply elem_of_seq. lia.
Qed.

(** A document without tokens: its index is the zeroed array with the
    codewords of pad = max(0, n) synthetic trapdoors inserted, those of
    counters 0 .. pad-1 under (MS, docID); a bit is set exactly when it is
    the position of one of their codewords, so at most pad * k bits are
    set. *)
Lemma empty_document_padding (sib : SecureIndexBuilder)
    (docID : Z) (content : string) (len : Z) :
  tokens content = [] -> 0 < sib_size sib ->
  let M := sib_size sib in
  let bits := si_bits (BuildSecureIndex sib docID content len) in
  let pad := Z.to_nat (Z.max 0 numUniqWords) in
  bits = addTrapdoors M (replicate (Z.to_nat M) false) (padTrapdoors sib docID pad)
  /\ List.length (padTrapdoors sib docID pad) = pad
  /\ (forall i : nat,
        bits !! i = Some true <->
        exists (c : nat) (t : bytes),
          (c < pad)%nat /\ t ∈ padTrapdoor sib docID c /\ bitPosition M t = i)
  /\ (popcount bits <= pad * List.length (sib_salts sib))%nat
  /\ forall u : nat, Z.of_nat (padCount u) = Z.max 0 (numUniqWords - Z.of_nat u).
Proof.
  intros Hempty HM M bits pad.
  assert (Hbits : bits = addTrapdoors M (replicate (Z.to_nat M) false)
                           (padTrapdoors sib docID pad)).
  { subst bits pad M. unfold BuildSecureIndex, uniqueTokens, addPadding, addWords.
    rewrite Hempty. cbn [remove_dups map addTrapdoors fold_left si_bits List.length].
    unfold padCount. do 3 f_equal. lia. }
  split; [exact Hbits|]. split; [apply length_padTrapdoors|].
  split; [|split].
  - intros i. rewrite Hbits. split.
    + intros [Hinit|(td & t & Htd & Ht & Hpos)]%addTrapdoors_origin.
      * by apply lookup_replicate_false in Hinit.
      * apply elem_of_padTrapdoors in Htd as (c & Hc & ->). by exists c, t.
    + intros (c & t & Hc & Ht & <-).
      apply (addTrapdoors_sets _ _ _ (padTrapdoor sib docID c)); [|done|].
      * apply elem_of_padTrapdoors. by exists c.
      * rewrite length_replicate. by apply bitPosition_lt.
  - rewrite Hbits.
    assert (Hk : Forall (fun td => List.length td = List.length (sib_salts sib))
                        (padTrapdoors sib docID pad)).
    { apply Forall_forall.
      intros td (c & _ & ->)%elem_of_padTrapdoors. apply length_trapdoorOf. }
    pose proof (popcount_addTrapdoors M _ _ Hk (replicate (Z.to_nat M) false)) as Hpop.
    by rewrite length_padTrapdoors, popcount_replicate_false in Hpop.
  - intros u. unfold padCount. lia.
Qed.

End WithPRF.

(** *** The model run with HMAC-SHA-256 *)

(** A docID and a counter, each on eight big-endian bytes. *)
Definition padWord64 (docID : Z) (counter : nat) : bytes :=
  Sha256.word_bytes (Z.shiftr docID 32) ++ Sha256.word_bytes docID ++
  Sha256.word_bytes (Z.shiftr (Z.of_nat counter) 32) ++
  Sha256.word_bytes (Z.of_nat counter).

Definition testSalts : list bytes :=
  [ [x01; x23; x45; x67; x89; xab; xcd; xef];
    [xfe; xdc; xba; x98; x76; x54; x32; x10] ].

(** The master secret of [TestSearchSecureIndex], two salts, 4096 bits. *)
Definition testBuilder : SecureIndexBuilder :=
  CreateSecureIndexBuilder (list_byte_of_string "test") testSalts 4096.

Definition testContent : string :=
  "This is a test file. It has a pretty random content.".

Example build_and_search_document_words :
  let index := BuildSecureIndex Sha256.hmac 8 padWord64 testBuilder 42 testContent 52 in
  forallb (fun w => SearchSecureIndex index (ComputeTrapdoors Sha256.hmac testBuilder w))
          (tokens testContent) = true
  /\ SearchSecureIndex index (ComputeTrapdoors Sha256.hmac testBuilder "nonDocWord") = false.
Proof. vm_compute. split; reflexivity. Qed.

Lemma BuildSecureIndex_deterministic_witness :
  BuildSecureIndex Sha256.hmac 8 padWord64 testBuilder 42 testContent 52
  = BuildSecureIndex Sha256.hmac 8 padWord64
      (mkSecureIndexBuilder (list_byte_of_string "test") testSalts 4096)
      42 testContent 0.
Proof.
  pose proof (BuildSecureIndex_deterministic Sha256.hmac 8 padWord64 testBuilder
                (mkSecureIndexBuilder (list_byte_of_string "test") testSalts 4096)
                42 testContent 52 0 eq_refl eq_refl eq_refl) as H.
  cbv zeta in H. destruct H as [H _]. exact H.
Defined.

(** In this model a synthetic trapdoor has one codeword per salt: with two
    salts and n = 1 the index of the empty document has two bits set. *)
Example empty_document_two_salts :
  tokens "" = []
  /\ popcount (si_bits (BuildSecureIndex Sha256.hmac 1 padWord64 testBuilder 7 "" 0))
     = 2%nat.
Proof. split; [reflexivity|vm_compute; reflexivity]. Qed.

End Indexer.

(** ** The server-side index store *)

Module Store.
Import Indexer.

Inductive StoreError := MalformedTrapdoor.

(** Modelled from the spec: the state of the absent server's store, "a
    mapping docID -> SecureIndex, plus an append-only list of docIDs",
    kept per folder with the folder's salts and size. *)
Record IndexStore := mkIndexStore {
  st_salts : list bytes;
  st_size : Z;
  st_indexes : gmap Z SecureIndex;
  st_docIDs : list Z
}.

Definition noteDocID (docID : Z) (l : list Z) : list Z :=
  if decide (docID ∈ l) then l else l ++ [docID].

(** Modelled from the spec: [write_index] of the absent server package,
    "insert or replace by docID". *)
Definition write_index (idx : SecureIndex) (st : IndexStore) : IndexStore :=
  {| st_salts := st_salts st; st_size := st_size st;
     st_indexes := <[si_docID idx := idx]> (st_indexes st);
     st_docIDs := noteDocID (si_docID idx) (st_docIDs st) |}.

(** Modelled from the spec: [rename_index] of the absent server package,
    "rebind the same bits under a new docID", "no-op if oldDocID absent". *)
Definition rename_index (old new : Z) (st : IndexStore) : IndexStore :=
  match st_indexes st !! old with
  | None => st
  | Some idx =>
      {| st_salts := st_salts st; st_size := st_size st;
         st_indexes := <[new := {| si_docID := new; si_bits := si_bits idx |}]>
                         (delete old (st_indexes st));
         st_docIDs := noteDocID new (st_docIDs st) |}
  end.

(** Modelled from the spec: [delete_index] of the absent server package,
    "remove", "no-op if absent". *)
Definition delete_index (docID : Z) (st : IndexStore) : IndexStore :=
  {| st_salts := st_salts st; st_size := st_size st;
     st_indexes := delete docID (st_indexes st);
     st_docIDs := st_docIDs st |}.

Section WithPRF.

Variable prf : bytes -> bytes -> bytes.
Variable numUniqWords : Z.
Variable padWord : Z -> nat -> bytes.
Variable prfWidth : nat.

(** Modelled from the spec: the check of the absent server for a
    malformed trapdoor, "tuple length <> k, or element length <> PRF
    width". *)
Definition wellFormedTrapdoor (st : IndexStore) (td : list bytes) : bool :=
  Nat.eqb (List.length td) (List.length (st_salts st))
  && forallb (fun t => Nat.eqb (List.length t) prfWidth) td.

(** Modelled from the spec: the search of the absent server, "iterate
    known indexes; an index matches iff for every i, bits[b_i] = 1"; a
    malformed trapdoor is reported and "search returns empty". *)
Definition search (st : IndexStore) (td : list bytes) : option StoreError * gset Z :=
  if wellFormedTrapdoor st td then
    (None, dom (filter (fun kv => SearchSecureIndex (snd kv) td = true) (st_indexes st)))
  else (Some MalformedTrapdoor, ∅).

Lemma search_hit st td docID idx :
  wellFormedTrapdoor st td = true ->
  st_indexes st !! docID = Some idx ->
  SearchSecureIndex idx td = true ->
  docID ∈ snd (search st td).
Proof.
  intros Hwf Hidx Hmatch. unfold search. rewrite Hwf. cbn [snd].
  apply elem_of_dom. exists idx. by apply map_lookup_filter_Some.
Qed.

Lemma search_only_stored st td docID :
  docID ∈ snd (search st td) -> is_Some (st_indexes st !! docID).
Proof.
  unfold search. destruct (wellFormedTrapdoor st td); cbn [snd].
  - intros [idx [Hidx _]%map_lookup_filter_Some]%elem_of_dom. by exists idx.
  - intros []%not_elem_of_empty.
Qed.

Lemma wellFormedTrapdoor_ComputeTrapdoors st sib w :
  (forall key msg, List.length (prf key msg) = prfWidth) ->
  st_salts st = sib_salts sib ->
  wellFormedTrapdoor st (ComputeTrapdoors prf sib w) = true.
Proof.
  intros Hwidth Hsalts. unfold wellFormedTrapdoor, ComputeTrapdoors.
  rewrite length_trapdoorOf, Hsalts, Nat.eqb_refl. cbn [andb].
  apply forallb_forall. intros t Ht%list_elem_of_In.
  unfold trapdoorOf in Ht.
  apply list_elem_of_fmap in Ht as (s & -> & _). apply Nat.eqb_eq, Hwidth.
Qed.

(** C1: for every word w among the whitespace-separated tokens of a
    document, the matcher accepts the trapdoor of w on the document's
    index, and a store of the same folder that has been handed that index
    answers the trapdoor of w without error and with a set that contains
    the document's docID. *)
Theorem no_false_negatives (sib : SecureIndexBuilder) (st : IndexStore)
    (docID : Z) (content : string) (len : Z) (w : string) :
  (forall key msg, List.length (prf key msg) = prfWidth) ->
  0 < sib_size sib ->
  st_salts st = sib_salts sib ->
  w ∈ tokens content ->
  let index := BuildSecureIndex prf numUniqWords padWord sib docID content len in
  let trapdoor := ComputeTrapdoors prf sib w in
  SearchSecureIndex index trapdoor = true
  /\ fst (search (write_index index st) trapdoor) = None
  /\ docID ∈ snd (search (write_index index st) trapdoor).
Proof.
  intros Hwidth HM Hsalts Hw index trapdoor.
  assert (Hmatch : SearchSecureIndex index trapdoor = true)
    by (by apply SearchSecureIndex_member).
  assert (Hwf : wellFormedTrapdoor (write_index index st) trapdoor = true)
    by (by apply wellFormedTrapdoor_ComputeTrapdoors).
  split; [exact Hmatch|]. split.
  - unfold search. by rewrite Hwf.
  - apply (search_hit _ _ _ index); [done| |done].
    cbn [write_index st_indexes]. subst index. cbn [BuildSecureIndex si_docID].
    apply lookup_insert_eq.
Qed.

(** *** Round trips of the store *)

Lemma noteDocID_idemp docID l : noteDocID docID (noteDocID docID l) = noteDocID docID l.
Proof.
  unfold noteDocID. destruct (decide (docID ∈ l)) as [Hin|Hout].
  - by rewrite decide_True.
  - rewrite decide_True; [done|].
    apply elem_of_app. right. apply list_elem_of_here.
Qed.

Lemma write_index_idemp idx st :
  write_index idx (write_index idx st) = write_index idx st.
Proof.
  unfold write_index. cbn [st_salts st_size st_indexes st_docIDs].
  by rewrite insert_insert_eq, noteDocID_idemp.
Qed.

Lemma rename_index_absent old new st :
  st_indexes st !! old = None -> rename_index old new st = st.
Proof. intros Habs. unfold rename_index. by rewrite Habs. Qed.

Lemma delete_index_absent docID st :
  st_indexes st !! docID = None -> delete_index docID st = st.
Proof.
  intros Habs. unfold delete_index. rewrite delete_id by done. by destruct st.
Qed.

Lemma search_after_delete st td docID :
  docID ∉ snd (search (delete_index docID st) td).
Proof.
  intros [idx Hidx]%search_only_stored.
  cbn [delete_index st_indexes] in Hidx. by rewrite lookup_delete_eq in Hidx.
Qed.

Lemma search_after_rename st td old new idx :
  old <> new ->
  st_indexes st !! old = Some idx ->
  wellFormedTrapdoor st td = true ->
  SearchSecureIndex idx td = true ->
  new ∈ snd (search (rename_index old new st) td)
  /\ old ∉ snd (search (rename_index old new st) td).
Proof.
  intros Hne Hidx Hwf Hmatch. unfold rename_index. rewrite Hidx. split.
  - eapply search_hit; [exact Hwf| |].
    + cbn [st_indexes]. apply lookup_insert_eq.
    + exact Hmatch.
  - intros [idx' Hidx']%search_only_stored. cbn [st_indexes] in Hidx'.
    rewrite lookup_insert_ne, lookup_delete_eq in Hidx' by done. done.
Qed.

End WithPRF.

Definition testStore : IndexStore := mkIndexStore testSalts 4096 ∅ [].

Lemma no_false_negatives_witness :
  let index := BuildSecureIndex Sha256.hmac 8 padWord64 testBuilder 42 testContent 52 in
  let trapdoor := ComputeTrapdoors Sha256.hmac testBuilder "test" in
  SearchSecureIndex index trapdoor = true
  /\ fst (search Sha256.size (write_index index testStore) trapdoor) = None
  /\ 42 ∈ snd (search Sha256.size (write_index index testStore) trapdoor).
Proof.
  apply (no_false_negatives Sha256.hmac 8 padWord64 Sha256.size
           testBuilder testStore 42 testContent 52 "test"
           Sha256.length_hmac eq_refl eq_refl).
  apply (bool_decide_unpack _). vm_compute. exact I.
Defined.

End Store.


(** ** Results of Go calls *)

Module Go.

(** A Go [error] value: [nil] or an error carrying its message. *)
Definition error : Type := option string.
Definition nil : error := None.
Definition errors_New (msg : string) : error := Some msg.

(** A call either returns or panics at run time. *)
Inductive outcome (A : Type) : Type :=
  | Returned (a : A)
  | Panicked.
Arguments Returned {A} a.
Arguments Panicked {A}.

End Go.
Import Go.

(** ** The fake search server of the client tests *)

Module Fake.

Section WithDocumentID.

(** [sserver1.DocumentID] is declared in the protocol package; the fake
    only compares its values. *)
Context {DocumentID : Type} `{EqDecision DocumentID}.

(** [docIDs] is the slice as its length bounds it; the backing array
    beyond the length is never read by another method. *)
Record FakeServerClient := mkFakeServerClient {
  docIDs : list DocumentID;
  searchCount : Z
}.

Record RenameIndexArg := mkRenameIndexArg { Orig : DocumentID; Curr : DocumentID }.

Definition WriteIndex (c : FakeServerClient) (docID : DocumentID)
    : error * FakeServerClient :=
  (nil, {| docIDs := docIDs c ++ [docID]; searchCount := searchCount c |}).

(** One iteration of the loop of [RenameIndex]: [docID] is read from the
    array at index [i], and the element is overwritten in place when it
    equals [arg.Orig]. *)
Definition renameStep (arg : RenameIndexArg) (arr : list DocumentID) (i : nat)
    : list DocumentID :=
  match arr !! i with
  | Some docID => if decide (docID = Orig arg) then <[i := Curr arg]> arr else arr
  | None => arr
  end.

Definition RenameIndex (c : FakeServerClient) (arg : RenameIndexArg)
    : error * FakeServerClient :=
  let arr := fold_left (renameStep arg) (seq 0 (length (docIDs c))) (docIDs c) in
  (nil, {| docIDs := arr; searchCount := searchCount c |}).

(** One iteration of the loop of [DeleteIndex].  The [range] clause has
    fixed the array [arr] and its length when the loop started, while
    [c.docIDs] now has length [cur].  On a match,
    [append(c.docIDs[:i], c.docIDs[i+1:]...)] moves the elements
    [i+1 .. cur-1] one place down inside the same array and shortens
    [c.docIDs] by one; the slice expression [c.docIDs[i+1:]] panics when
    [i+1] exceeds [cur]. *)
Definition deleteStep (target : DocumentID) (st : outcome (list DocumentID * nat))
    (i : nat) : outcome (list DocumentID * nat) :=
  match st with
  | Panicked => Panicked
  | Returned (arr, cur) =>
      match arr !! i with
      | Some docID =>
          if decide (docID = target) then
            if decide (i + 1 <= cur)%nat then
              Returned (take i arr ++ drop (i + 1) (take cur arr) ++ drop (cur - 1) arr,
                        (cur - 1)%nat)
            else Panicked
          else Returned (arr, cur)
      | None => Returned (arr, cur)
      end
  end.

Definition DeleteIndex (c : FakeServerClient) (docID : DocumentID)
    : outcome (error * FakeServerClient) :=
  let n := length (docIDs c) in
  match fold_left (deleteStep docID) (seq 0 n) (Returned (docIDs c, n)) with
  | Panicked => Panicked
  | Returned (arr, cur) =>
      Returned (nil, {| docIDs := take cur arr; searchCount := searchCount c |})
  end.

Definition GetKeyGens (c : FakeServerClient) : list Z * error := ([1], nil).

(** [SearchWord] indexes [c.docIDs[1]] and [c.docIDs[3]] on its first
    call, which panics on fewer than four documents. *)
Definition SearchWord (c : FakeServerClient)
    : outcome (list DocumentID * error * FakeServerClient) :=
  let c' := {| docIDs := docIDs c; searchCount := searchCount c + 1 |} in
  if decide (searchCount c' = 1) then
    match docIDs c !! 1%nat, docIDs c !! 3%nat with
    | Some d1, Some d3 => Returned ([d1; d3], nil, c')
    | _, _ => Panicked
    end
  else if decide (searchCount c' = 2) then Returned ([], nil, c')
  else Returned (docIDs c, nil, c').

(** What [RenameIndex] makes of one docID. *)
Definition renamed (arg : RenameIndexArg) (d : DocumentID) : DocumentID :=
  if decide (d = Orig arg) then Curr arg else d.

(** *** The loops when nothing matches *)

Lemma renameStep_absent arg arr i :
  Orig arg ∉ arr -> renameStep arg arr i = arr.
Proof.
  intros Habs. unfold renameStep.
  destruct (arr !! i) as [d|] eqn:Hd; [|done].
  destruct (decide (d = Orig arg)) as [->|Hne]; [|done].
  exfalso. apply Habs. by eapply list_elem_of_lookup_2.
Qed.

Lemma rename_loop_absent arg arr idxs :
  Orig arg ∉ arr -> fold_left (renameStep arg) idxs arr = arr.
Proof.
  intros Habs. induction idxs as [|i idxs IH]; cbn [fold_left]; [done|].
  by rewrite renameStep_absent.
Qed.

Lemma deleteStep_absent target arr cur i :
  target ∉ arr ->
  deleteStep target (Returned (arr, cur)) i = Returned (arr, cur).
Proof.
  intros Habs. unfold deleteStep.
  destruct (arr !! i) as [d|] eqn:Hd; [|done].
  destruct (decide (d = target)) as [->|Hne]; [|done].
  exfalso. apply Habs. by eapply list_elem_of_lookup_2.
Qed.

Lemma delete_loop_absent target arr cur idxs :
  target ∉ arr ->
  fold_left (deleteStep target) idxs (Returned (arr, cur)) = Returned (arr, cur).
Proof.
  intros Habs. induction idxs as [|i idxs IH]; cbn [fold_left]; [done|].
  by rewrite deleteStep_absent.
Qed.

Lemma RenameIndex_absent c arg :
  Orig arg ∉ docIDs c -> RenameIndex c arg = (nil, c).
Proof.
  intros Habs. unfold RenameIndex. rewrite rename_loop_absent by done.
  by destruct c.
Qed.

Lemma DeleteIndex_absent c docID :
  docID ∉ docIDs c -> DeleteIndex c docID = Returned (nil, c).
Proof.
  intros Habs. unfold DeleteIndex. rewrite delete_loop_absent by done.
  rewrite firstn_all. by destruct c.
Qed.

(** C7: renaming a docID that is absent and deleting a docID that is
    absent return no error and change nothing, so that the same call made
    a second time meets the same state and succeeds in the same way: on
    the fake server of the client tests, whose state is its list of
    docIDs, and on the store of the server, whose state is the mapping
    from docIDs to indexes. *)
Theorem absent_docID_noop (c : FakeServerClient) (old new docID : DocumentID)
    (st : Store.IndexStore) (oldID newID delID : Z) :
  old ∉ docIDs c ->
  docID ∉ docIDs c ->
  Store.st_indexes st !! oldID = None ->
  Store.st_indexes st !! delID = None ->
  (RenameIndex c (mkRenameIndexArg old new) = (nil, c)
   /\ RenameIndex (snd (RenameIndex c (mkRenameIndexArg old new)))
                  (mkRenameIndexArg old new) = (nil, c)
   /\ DeleteIndex c docID = Returned (nil, c)
   /\ (forall c', DeleteIndex c docID = Returned (nil, c') ->
                  DeleteIndex c' docID = Returned (nil, c')))
  /\ (Store.rename_index oldID newID st = st
      /\ Store.rename_index oldID newID (Store.rename_index oldID newID st) = st
      /\ Store.delete_index delID st = st
      /\ Store.delete_index delID (Store.delete_index delID st) = st).
Proof.
  intros Hold HdocID HoldID HdelID.
  assert (Hrename : RenameIndex c (mkRenameIndexArg old new) = (nil, c))
    by by apply RenameIndex_absent.
  assert (Hdelete : DeleteIndex c docID = Returned (nil, c))
    by by apply DeleteIndex_absent.
  split.
  - split; [exact Hrename|]. split; [by rewrite Hrename|].
    split; [exact Hdelete|].
    intros c' Hfirst. rewrite Hdelete in Hfirst. by injection Hfirst as <-.
  - rewrite !Store.rename_index_absent by done.
    rewrite !Store.delete_index_absent by done. done.
Qed.

(** *** The loops in general *)

Lemma rename_loop_prefix arg arr : forall j,
  (j <= length arr)%nat ->
  fold_left (renameStep arg) (seq 0 j) arr
  = map (renamed arg) (take j arr) ++ drop j arr.
Proof.
  induction j as [|j IH]; intros Hj; [done|].
  rewrite seq_S, fold_left_app, IH by lia. cbn [fold_left Nat.add].
  destruct (lookup_lt_is_Some_2 arr j) as [d Hd]; [lia|].
  assert (Hlen : length (map (renamed arg) (take j arr)) = j).
  { rewrite length_map, length_take. lia. }
  rewrite (take_S_r _ _ _ Hd), map_app. cbn [map].
  rewrite <- app_assoc. cbn [app].
  rewrite (drop_S _ _ _ Hd). unfold renameStep.
  rewrite lookup_app_r, Hlen, Nat.sub_diag by lia.
  cbn [lookup list_lookup]. unfold renamed at 4.
  destruct (decide (d = Orig arg)) as [->|Hne]; [|done].
  rewrite insert_app_r_alt, Hlen, Nat.sub_diag by lia. done.
Qed.

(** [RenameIndex] replaces every occurrence of the old docID. *)
Lemma RenameIndex_map c arg :
  RenameIndex c arg
  = (nil, {| docIDs := map (renamed arg) (docIDs c); searchCount := searchCount c |}).
Proof.
  unfold RenameIndex. rewrite rename_loop_prefix by done.
  by rewrite firstn_all, drop_all, app_nil_r.
Qed.

(** X2: [RenameIndex] is idempotent: the same call made once more
    returns what the first call returned, the list of docIDs as the first
    call left it. *)
Lemma RenameIndex_twice c arg :
  RenameIndex (snd (RenameIndex c arg)) arg = RenameIndex c arg.
Proof.
  rewrite !RenameIndex_map. cbn [snd docIDs searchCount]. do 2 f_equal.
  rewrite map_map. apply map_ext. intros d. unfold renamed.
  destruct (decide (d = Orig arg)) as [->|Hne].
  - destruct (decide (Curr arg = Orig arg)) as [Heq|_]; done.
  - by rewrite decide_False.
Qed.

Lemma delete_loop_nomatch target arr cur idxs :
  (forall i, i ∈ idxs -> arr !! i <> Some target) ->
  fold_left (deleteStep target) idxs (Returned (arr, cur)) = Returned (arr, cur).
Proof.
  induction idxs as [|i idxs IH]; intros Hno; cbn [fold_left]; [done|].
  assert (Hstep : deleteStep target (Returned (arr, cur)) i = Returned (arr, cur)).
  { unfold deleteStep. destruct (arr !! i) as [d|] eqn:Hd; [|done].
    destruct (decide (d = target)) as [->|Hne]; [|done].
    by destruct (Hno i (list_elem_of_here _ _)). }
  rewrite Hstep. apply IH. intros j Hj. by apply Hno, list_elem_of_further.
Qed.

(** [DeleteIndex] on a docID listed once: the entry is removed, the
    others keep their order. *)
Lemma DeleteIndex_once c d l1 l2 :
  docIDs c = l1 ++ d :: l2 -> d ∉ l1 -> d ∉ l2 ->
  DeleteIndex c d
  = Returned (nil, {| docIDs := l1 ++ l2; searchCount := searchCount c |}).
Proof.
  intros Hlist Hl1 Hl2. unfold DeleteIndex. rewrite Hlist.
  set (p := length l1). set (arr := l1 ++ d :: l2).
  assert (Hn : length arr = (p + S (length l2))%nat).
  { subst arr p. rewrite length_app. done. }
  rewrite Hn, seq_app, fold_left_app. cbn [seq fold_left Nat.add].
  rewrite delete_loop_nomatch.
  2:{ intros i Hi%elem_of_seq Hd. subst arr p.
      assert (Hlt : (i < length l1)%nat) by lia.
      rewrite (lookup_app_l _ _ _ Hlt) in Hd.
      apply Hl1. by eapply list_elem_of_lookup_2. }
  assert (Hp : arr !! p = Some d).
  { subst arr p. by rewrite list_lookup_middle. }
  unfold deleteStep at 2. rewrite Hp, decide_True by done.
  rewrite decide_True by lia.
  assert (Htake : take p arr = l1) by (subst arr p; by rewrite take_app_length).
  assert (Hdrop : drop (p + 1) (take (p + S (length l2)) arr) = l2).
  { rewrite <- Hn, firstn_all. subst arr p.
    rewrite drop_app_ge by lia.
    replace (length l1 + 1 - length l1)%nat with 1%nat by lia. done. }
  rewrite Htake, Hdrop.
  replace (p + S (length l2) - 1)%nat with (p + length l2)%nat by lia.
  destruct l2 as [|d2 l2].
  - cbn [seq fold_left length]. rewrite Nat.add_0_r, app_nil_l. subst p.
    by rewrite take_app_length, app_nil_r.
  - rewrite delete_loop_absent.
    + rewrite app_assoc. rewrite take_app_length'; [done|].
      subst p. by rewrite length_app.
    + intros Hin. apply elem_of_app in Hin as [Hin|Hin]; [done|].
      apply elem_of_app in Hin as [Hin|Hin]; [done|].
      apply list_elem_of_lookup in Hin as [i Hi]. rewrite lookup_drop in Hi.
      subst arr p. rewrite lookup_app_r in Hi by lia.
      replace (length l1 + length (d2 :: l2) + i - length l1)%nat
        with (S (length l2 + i)) in Hi by (cbn [length]; lia).
      cbn [lookup list_lookup] in Hi. by apply list_elem_of_lookup_2 in Hi.
Qed.

(** Deleting a docID listed once, then deleting it again: both calls
    return no error. *)
Lemma DeleteIndex_twice c d l1 l2 :
  docIDs c = l1 ++ d :: l2 -> d ∉ l1 -> d ∉ l2 ->
  exists c1, DeleteIndex c d = Returned (nil, c1)
             /\ (d ∉ docIDs c1)
             /\ DeleteIndex c1 d = Returned (nil, c1).
Proof.
  intros Hlist Hl1 Hl2. eexists. split; [by apply DeleteIndex_once|].
  assert (Hout : d ∉ l1 ++ l2).
  { intros [?|?]%elem_of_app; done. }
  split; [exact Hout|]. by apply DeleteIndex_absent.
Qed.

(** *** What the methods guarantee *)

(** X1: [RenameIndex] never fails: it returns no error, leaves the
    search counter alone and replaces every occurrence of the old docID by
    the new one, every other docID keeping its place; unless the two
    docIDs are the same, the old one is no longer listed afterwards. *)
Theorem RenameIndex_replaces_every_occurrence (c : FakeServerClient)
    (arg : RenameIndexArg) :
  let r := RenameIndex c arg in
  fst r = nil
  /\ searchCount (snd r) = searchCount c
  /\ length (docIDs (snd r)) = length (docIDs c)
  /\ (forall i, docIDs (snd r) !! i = renamed arg <$> docIDs c !! i)
  /\ (Orig arg <> Curr arg -> Orig arg ∉ docIDs (snd r)).
Proof.
  intros r. subst r. rewrite RenameIndex_map. cbn [fst snd docIDs searchCount].
  split; [done|]. split; [done|]. split; [by rewrite length_map|].
  split; [intros i; apply list_lookup_fmap|].
  intros Hne (d & Heq & _)%list_elem_of_fmap. unfold renamed in Heq.
  destruct (decide (d = Orig arg)); congruence.
Qed.

(** X3: renaming a docID to one that is not listed and then renaming it
    back restores the fake as it was. *)
Theorem RenameIndex_and_back (c : FakeServerClient) (a b : DocumentID) :
  b ∉ docIDs c ->
  RenameIndex (snd (RenameIndex c (mkRenameIndexArg a b))) (mkRenameIndexArg b a)
  = (nil, c).
Proof.
  intros Hb. rewrite !RenameIndex_map. cbn [snd docIDs searchCount].
  rewrite map_map.
  assert (Hid : map (fun d => renamed (mkRenameIndexArg b a)
                                (renamed (mkRenameIndexArg a b) d)) (docIDs c)
                = docIDs c).
  { rewrite <- (map_id (docIDs c)) at 2. apply map_ext_in.
    intros d Hd%list_elem_of_In. unfold renamed. cbn [Orig Curr].
    destruct (decide (d = a)) as [->|Hne].
    - by rewrite decide_True.
    - rewrite decide_False; [done|]. by intros ->. }
  rewrite Hid. by destruct c.
Qed.

(** *** The loop of [DeleteIndex] on a docID listed more than once *)

Lemma delete_loop_Panicked target idxs :
  fold_left (deleteStep target) idxs Panicked = Panicked.
Proof. induction idxs as [|i idxs IH]; [done|]. exact IH. Qed.

(** The array after [append(c.docIDs[:i], c.docIDs[i+1:]...)]: the
    elements from [i+1] up to the length have moved one place down, the
    cells from the new length on are as they were. *)
Lemma shifted_lookup (arr : list DocumentID) i cur j :
  (i + 1 <= cur <= length arr)%nat ->
  (take i arr ++ drop (i + 1) (take cur arr) ++ drop (cur - 1) arr) !! j
  = if decide (j < i)%nat then arr !! j
    else if decide (j < cur - 1)%nat then arr !! (j + 1)%nat else arr !! j.
Proof.
  intros Hb.
  assert (Hl1 : length (take i arr) = i) by (rewrite length_take; lia).
  assert (Hl2 : length (drop (i + 1) (take cur arr)) = (cur - (i + 1))%nat)
    by (rewrite length_drop, length_take; lia).
  destruct (decide (j < i)%nat).
  - rewrite lookup_app_l by lia. by rewrite lookup_take_lt.
  - rewrite lookup_app_r by lia. rewrite Hl1.
    destruct (decide (j < cur - 1)%nat).
    + rewrite lookup_app_l by lia. rewrite lookup_drop, lookup_take_lt by lia.
      f_equal. lia.
    + rewrite lookup_app_r by lia. rewrite Hl2, lookup_drop. f_equal. lia.
Qed.

Lemma shifted_length (arr : list DocumentID) i cur :
  (i + 1 <= cur <= length arr)%nat ->
  length (take i arr ++ drop (i + 1) (take cur arr) ++ drop (cur - 1) arr)
  = length arr.
Proof.
  intros Hb. rewrite !length_app, length_take, !length_drop, length_take. lia.
Qed.

(** Once an element has been removed, the last cell of the array is
    beyond the length of [c.docIDs] and keeps its value. *)
Lemma delete_loop_stale target n idxs : forall arr cur,
  length arr = n -> (cur <= n - 1)%nat -> arr !! (n - 1)%nat = Some target ->
  match fold_left (deleteStep target) idxs (Returned (arr, cur)) with
  | Panicked => True
  | Returned (arr', cur') =>
      length arr' = n /\ (cur' <= n - 1)%nat /\ arr' !! (n - 1)%nat = Some target
  end.
Proof.
  induction idxs as [|i idxs IH]; intros arr cur Hlen Hcur Hlast;
    cbn [fold_left]; [done|].
  unfold deleteStep at 2.
  destruct (arr !! i) as [x|] eqn:Hx; [|by apply IH].
  destruct (decide (x = target)); [|by apply IH].
  destruct (decide (i + 1 <= cur)%nat); [|by rewrite delete_loop_Panicked].
  apply IH.
  - rewrite shifted_length; lia.
  - lia.
  - rewrite shifted_lookup by lia. rewrite !decide_False by lia. done.
Qed.

(** With the docID in the last place and in an earlier one, the loop
    reaches the last cell after [c.docIDs] has become shorter. *)
Lemma DeleteIndex_repeated_last c d l :
  docIDs c = l ++ [d] -> d ∈ l -> DeleteIndex c d = Panicked.
Proof.
  intros Hlist Hin. apply list_elem_of_split_l in Hin as (l1 & l2 & -> & Hl1).
  unfold DeleteIndex. rewrite Hlist.
  set (arr := (l1 ++ d :: l2) ++ [d]). set (p := length l1). set (m := length l2).
  assert (Hn : length arr = (p + (1 + (m + 1)))%nat).
  { subst arr p m. rewrite !length_app. cbn [length]. lia. }
  rewrite Hn, !seq_app, !fold_left_app. cbn [seq fold_left Nat.add].
  rewrite delete_loop_nomatch.
  2:{ intros i Hi%elem_of_seq Hd. subst arr p.
      assert (Hlt : (i < length l1)%nat) by lia.
      rewrite <- app_assoc in Hd. rewrite (lookup_app_l _ _ _ Hlt) in Hd.
      apply Hl1. by eapply list_elem_of_lookup_2. }
  assert (Hp : arr !! p = Some d).
  { subst arr p. rewrite <- app_assoc, <- app_comm_cons.
    by rewrite list_lookup_middle. }
  assert (Hlast : arr !! (p + (1 + (m + 1)) - 1)%nat = Some d).
  { subst arr p m. rewrite lookup_app_r by (rewrite length_app; cbn [length]; lia).
    rewrite length_app. cbn [length].
    replace (length l1 + (1 + (length l2 + 1)) - 1 - (length l1 + S (length l2)))%nat
      with 0%nat by lia. done. }
  unfold deleteStep at 3. rewrite Hp, decide_True by done.
  rewrite decide_True by lia.
  set (n := (p + (1 + (m + 1)))%nat) in *.
  pose proof (delete_loop_stale d n (seq (p + 1) m)
                (take p arr ++ drop (p + 1) (take n arr) ++ drop (n - 1) arr)
                (n - 1)%nat) as Hinv.
  destruct (fold_left (deleteStep d) (seq (p + 1) m) _) as [[arr' cur']|].
  - destruct Hinv as (Hlen' & Hcur' & Hlast').
    + rewrite shifted_length; lia.
    + lia.
    + rewrite shifted_lookup by lia. rewrite !decide_False by lia. done.
    + unfold deleteStep.
      replace (p + 1 + m)%nat with (n - 1)%nat by lia.
      rewrite Hlast', decide_True by done. rewrite decide_False by lia. done.
  - done.
Qed.

(** When the last docID is another one, every removal happens below the
    length of [c.docIDs], and the cells from the last live one on hold
    that last docID. *)
Lemma delete_loop_other_last target z n idxs : forall arr cur,
  z <> target ->
  length arr = n -> (1 <= cur <= n)%nat ->
  (forall j, (cur - 1 <= j < n)%nat -> arr !! j = Some z) ->
  exists arr' cur',
    fold_left (deleteStep target) idxs (Returned (arr, cur)) = Returned (arr', cur').
Proof.
  induction idxs as [|i idxs IH]; intros arr cur Hz Hlen Hcur Htail;
    cbn [fold_left]; [by eexists _, _|].
  unfold deleteStep at 2.
  destruct (arr !! i) as [x|] eqn:Hx; [|by apply IH].
  destruct (decide (x = target)) as [->|Hne]; [|by apply IH].
  assert (Hi : (i < cur - 1)%nat).
  { destruct (decide (i < cur - 1)%nat) as [|Hge]; [done|].
    apply lookup_lt_Some in Hx as Hlt.
    rewrite Htail in Hx by lia. congruence. }
  rewrite decide_True by lia. apply IH; [done| | |].
  - rewrite shifted_length; lia.
  - lia.
  - intros j Hj. rewrite shifted_lookup by lia. rewrite decide_False by lia.
    destruct (decide (j < cur - 1)%nat); apply Htail; lia.
Qed.

(** X5: [DeleteIndex] panics exactly when the docID is the last one of
    the list and is listed before that as well: the loop then slices
    [c.docIDs] beyond the length an earlier removal has left.  In every
    other case it returns. *)
Theorem DeleteIndex_panics_iff (c : FakeServerClient) (d : DocumentID) :
  DeleteIndex c d = Panicked <-> exists l, docIDs c = l ++ [d] /\ d ∈ l.
Proof.
  split; [|intros (l & Hlist & Hin); by eapply DeleteIndex_repeated_last].
  intros Hpanic.
  assert (Hcases : docIDs c = [] \/ exists l0 z, docIDs c = l0 ++ [z]).
  { destruct (docIDs c) as [|z l0 _] using rev_ind; [by left|right; by exists l0, z]. }
  destruct Hcases as [Hlist|(l0 & z & Hlist)].
  { unfold DeleteIndex in Hpanic. rewrite Hlist in Hpanic. discriminate. }
  destruct (decide (z = d)) as [->|Hz].
  - destruct (decide (d ∈ l0)) as [Hin|Hout]; [by exists l0|].
    rewrite (DeleteIndex_once c d l0 []) in Hpanic; [discriminate|done|done|].
    by intros ?%elem_of_nil.
  - exfalso. unfold DeleteIndex in Hpanic. rewrite Hlist in Hpanic.
    destruct (delete_loop_other_last d z (length (l0 ++ [z]))
                (seq 0 (length (l0 ++ [z]))) (l0 ++ [z]) (length (l0 ++ [z])))
      as (arr' & cur' & Hrun); [done|done| | |].
    + rewrite length_app. cbn [length]. lia.
    + intros j Hj. rewrite length_app in Hj. cbn [length] in Hj.
      assert (j = length l0) as -> by lia.
      rewrite lookup_app_r by lia. by rewrite Nat.sub_diag.
    + rewrite Hrun in Hpanic. discriminate.
Qed.

Lemma filter_other_absent (d : DocumentID) (l : list DocumentID) :
  d ∉ l -> filter (fun x => x <> d) l = l.
Proof.
  induction l as [|x l IH]; intros Hout; [done|].
  apply not_elem_of_cons in Hout as [Hne Hout].
  rewrite filter_cons_True by done. by rewrite IH.
Qed.

(** X4: on a list without repetitions, as [WriteIndex] builds it from
    distinct docIDs, [DeleteIndex] returns no error and removes the docID:
    the others stay, in their order, and the search counter is left
    alone. *)
Theorem DeleteIndex_without_repetitions (c : FakeServerClient) (d : DocumentID) :
  NoDup (docIDs c) ->
  DeleteIndex c d
  = Returned (nil, {| docIDs := filter (fun x => x <> d) (docIDs c);
                      searchCount := searchCount c |}).
Proof.
  intros Hnodup. destruct (decide (d ∈ docIDs c)) as [Hin|Hout].
  - apply list_elem_of_split in Hin as (l1 & l2 & Hlist).
    rewrite Hlist in Hnodup. apply NoDup_app in Hnodup as (_ & Hl1 & Hnodup).
    apply NoDup_cons in Hnodup as [Hl2 _].
    assert (Hl1' : d ∉ l1).
    { intros Hin. apply (Hl1 d Hin). apply list_elem_of_here. }
    rewrite (DeleteIndex_once c d l1 l2) by done.
    rewrite Hlist, filter_app, filter_cons_False by (intros Hne; by apply Hne).
    by rewrite !filter_other_absent.
  - rewrite DeleteIndex_absent by done. rewrite filter_other_absent by done.
    by destruct c.
Qed.

(** X6: deleting the docID that [WriteIndex] has just appended: when it
    was not listed before, [DeleteIndex] restores the fake as it was before
    the write; when it was, [DeleteIndex] panics. *)
Theorem DeleteIndex_after_WriteIndex (c : FakeServerClient) (d : DocumentID) :
  DeleteIndex (snd (WriteIndex c d)) d
  = if decide (d ∈ docIDs c) then Panicked else Returned (nil, c).
Proof.
  destruct (decide (d ∈ docIDs c)) as [Hin|Hout].
  - by apply (DeleteIndex_repeated_last _ d (docIDs c)).
  - rewrite (DeleteIndex_once _ d (docIDs c) []); [|done|done|by intros ?%elem_of_nil].
    cbn [WriteIndex snd searchCount]. rewrite app_nil_r. by destruct c.
Qed.

End WithDocumentID.

Lemma absent_docID_noop_witness :
  let c := mkFakeServerClient [1; 2; 3] 0 in
  let st := Store.write_index (Indexer.mkSecureIndex 5 [true; false]) Store.testStore in
  (RenameIndex c (mkRenameIndexArg 7 42) = (nil, c)
   /\ RenameIndex (snd (RenameIndex c (mkRenameIndexArg 7 42)))
                  (mkRenameIndexArg 7 42) = (nil, c)
   /\ DeleteIndex c 9 = Returned (nil, c)
   /\ (forall c', DeleteIndex c 9 = Returned (nil, c') ->
                  DeleteIndex c' 9 = Returned (nil, c')))
  /\ (Store.rename_index 7 42 st = st
      /\ Store.rename_index 7 42 (Store.rename_index 7 42 st) = st
      /\ Store.delete_index 9 st = st
      /\ Store.delete_index 9 (Store.delete_index 9 st) = st).
Proof.
  apply (absent_docID_noop (mkFakeServerClient [1; 2; 3] 0) 7 42 9
           (Store.write_index (Indexer.mkSecureIndex 5 [true; false]) Store.testStore)
           7 42 9).
  1, 2: apply (bool_decide_unpack _); vm_compute; exact I.
  all: vm_compute; reflexivity.
Defined.

Lemma RenameIndex_replaces_every_occurrence_witness :
  let r := RenameIndex (mkFakeServerClient [7; 5; 7] 0) (mkRenameIndexArg 7 42) in
  docIDs (snd r) = [42; 5; 42] /\ (7 ∉ docIDs (snd r)).
Proof.
  pose proof (RenameIndex_replaces_every_occurrence
                (mkFakeServerClient [7; 5; 7] 0) (mkRenameIndexArg 7 42)) as Hall.
  cbv zeta in Hall. destruct Hall as (_ & _ & _ & _ & Hgone).
  split; [vm_compute; reflexivity|]. apply Hgone. cbn [Orig Curr]. lia.
Defined.

Lemma RenameIndex_and_back_witness :
  let c := mkFakeServerClient [7; 5; 7] 0 in
  RenameIndex (snd (RenameIndex c (mkRenameIndexArg 7 42))) (mkRenameIndexArg 42 7)
  = (nil, c).
Proof.
  apply (RenameIndex_and_back (mkFakeServerClient [7; 5; 7] 0) 7 42).
  apply (bool_decide_unpack _). vm_compute. exact I.
Defined.

Lemma DeleteIndex_without_repetitions_witness :
  DeleteIndex (mkFakeServerClient [1; 2; 3] 0) 2
  = Returned (nil, mkFakeServerClient (filter (fun x => x <> 2) [1; 2; 3]) 0).
Proof.
  apply (DeleteIndex_without_repetitions (mkFakeServerClient [1; 2; 3] 0) 2).
  apply (bool_decide_unpack _). vm_compute. exact I.
Defined.

(** [TestRenameFile] and [TestDeleteFile] against the fake: one document,
    renamed twice, deleted twice. *)
Example rename_and_delete_twice :
  let c := mkFakeServerClient [7] 0 in
  let c1 := snd (RenameIndex c (mkRenameIndexArg 7 42)) in
  RenameIndex c (mkRenameIndexArg 7 42) = (nil, mkFakeServerClient [42] 0)
  /\ RenameIndex c1 (mkRenameIndexArg 7 42) = (nil, c1)
  /\ DeleteIndex c1 42 = Returned (nil, mkFakeServerClient [] 0)
  /\ DeleteIndex (mkFakeServerClient [] 0) 42 = Returned (nil, mkFakeServerClient [] 0).
Proof. vm_compute. repeat split; reflexivity. Qed.

(** With the docID listed more than once the loop of [DeleteIndex] keeps
    reading the array it has shifted, and slices past the shortened
    length. *)
Example DeleteIndex_listed_twice :
  DeleteIndex (mkFakeServerClient [7; 5; 7] 0) 7 = Panicked
  /\ DeleteIndex (mkFakeServerClient [7; 7] 0) 7 = Panicked
  /\ DeleteIndex (mkFakeServerClient [7; 7; 5] 0) 7
     = Returned (nil, mkFakeServerClient [7; 5] 0).
Proof. vm_compute. repeat split; reflexivity. Qed.

End Fake.

(** ** [strconv], [strings] and [path] as the client calls them *)

Module GoStrings.

(** [strconv.Itoa]: the decimal form, with a minus sign when negative. *)
Definition Itoa (i : Z) : string := NilEmpty.string_of_int (Z.to_int i).

Definition is_digit (a : ascii) : bool :=
  let n := nat_of_ascii a in (Nat.leb 48 n && Nat.leb n 57)%bool.

Fixpoint digits_value (acc : Z) (s : string) : option Z :=
  match s with
  | EmptyString => Some acc
  | String a s' =>
      if is_digit a then digits_value (acc * 10 + (Z.of_nat (nat_of_ascii a) - 48)) s'
      else None
  end.

Definition minInt : Z := - 2 ^ 63.
Definition maxInt : Z := 2 ^ 63 - 1.

(** [strconv.Atoi] on a 64-bit platform: an optional sign, at least one
    digit, nothing but decimal digits, and a value that fits [int]. *)
Definition Atoi (s : string) : Z * error :=
  let '(neg, body) :=
    match s with
    | String "-" s' => (true, s')
    | String "+" s' => (false, s')
    | _ => (false, s)
    end in
  match body with
  | EmptyString => (0, errors_New "invalid syntax")
  | _ =>
      match digits_value 0 body with
      | None => (0, errors_New "invalid syntax")
      | Some n =>
          let v := if neg then - n else n in
          if Z.ltb v minInt then (minInt, errors_New "value out of range")
          else if Z.ltb maxInt v then (maxInt, errors_New "value out of range")
          else (v, nil)
      end
  end.

(** The value of a decimal numeral read from the left, [acc] being the
    value of the digits read before it. *)
Fixpoint uint_value (u : Decimal.uint) (acc : Z) : Z :=
  match u with
  | Decimal.Nil => acc
  | Decimal.D0 u' => uint_value u' (acc * 10 + 0)
  | Decimal.D1 u' => uint_value u' (acc * 10 + 1)
  | Decimal.D2 u' => uint_value u' (acc * 10 + 2)
  | Decimal.D3 u' => uint_value u' (acc * 10 + 3)
  | Decimal.D4 u' => uint_value u' (acc * 10 + 4)
  | Decimal.D5 u' => uint_value u' (acc * 10 + 5)
  | Decimal.D6 u' => uint_value u' (acc * 10 + 6)
  | Decimal.D7 u' => uint_value u' (acc * 10 + 7)
  | Decimal.D8 u' => uint_value u' (acc * 10 + 8)
  | Decimal.D9 u' => uint_value u' (acc * 10 + 9)
  end.

(** [strings.Split(s, sep)] for a one-byte separator: the pieces between
    the separators, one more than there are separators.  The piece being
    read is kept reversed in [cur]. *)
Fixpoint splitAt (sep : ascii) (cur : list ascii) (s : string) : list string :=
  match s with
  | EmptyString => [string_of_list_ascii (rev cur)]
  | String a s' =>
      if Ascii.eqb a sep then string_of_list_ascii (rev cur) :: splitAt sep [] s'
      else splitAt sep (a :: cur) s'
  end.

Definition Split (s : string) (sep : ascii) : list string := splitAt sep [] s.

Fixpoint contains_byte (a : ascii) (s : string) : bool :=
  match s with
  | EmptyString => false
  | String b s' => (Ascii.eqb b a || contains_byte a s')%bool
  end.

Fixpoint Join (pieces : list string) (sep : string) : string :=
  match pieces with
  | [] => EmptyString
  | [p] => p
  | p :: rest => (p ++ sep ++ Join rest sep)%string
  end.

Example Itoa_values : (Itoa 0, Itoa 42, Itoa (-7)) = ("0", "42", "-7")%string.
Proof. reflexivity. Qed.

Example Atoi_values :
  (Atoi "42", Atoi "-7", Atoi "+5", Atoi "007")
  = ((42, nil), (-7, nil), (5, nil), (7, nil)).
Proof. reflexivity. Qed.

Example Atoi_errors :
  (snd (Atoi ""), snd (Atoi "-"), snd (Atoi "x1"), snd (Atoi "9223372036854775808"))
  = (errors_New "invalid syntax", errors_New "invalid syntax",
     errors_New "invalid syntax", errors_New "value out of range").
Proof. reflexivity. Qed.

Example Split_values :
  (Split "a,b,,c" ",", Split "" ",", Split "a," ",")
  = (["a"; "b"; ""; "c"], [""], ["a"; ""])%string.
Proof. reflexivity. Qed.

Lemma Itoa_inj i j : Itoa i = Itoa j -> i = j.
Proof.
  unfold Itoa. intros Heq. apply DecimalZ.to_int_inj.
  apply (f_equal NilEmpty.int_of_string) in Heq.
  rewrite !NilEmpty.isi in Heq. congruence.
Qed.

(** [Atoi] reads back what [Itoa] writes. *)
Lemma digits_value_string_of_uint u : forall acc,
  digits_value acc (NilEmpty.string_of_uint u) = Some (uint_value u acc).
Proof.
  induction u as [|u IH|u IH|u IH|u IH|u IH|u IH|u IH|u IH|u IH|u IH]; intros acc;
    [reflexivity|..]; cbn [NilEmpty.string_of_uint digits_value uint_value];
    apply IH.
Qed.

Lemma of_uint_acc_value u : forall acc,
  Z.pos (Pos.of_uint_acc u acc) = uint_value u (Z.pos acc).
Proof.
  induction u as [|u IH|u IH|u IH|u IH|u IH|u IH|u IH|u IH|u IH|u IH]; intros acc;
    [reflexivity|..]; cbn [Pos.of_uint_acc uint_value]; rewrite IH; f_equal; lia.
Qed.

Lemma of_uint_value u : Z.of_N (Pos.of_uint u) = uint_value u 0.
Proof.
  induction u as [|u IH|u IH|u IH|u IH|u IH|u IH|u IH|u IH|u IH|u IH];
    [reflexivity|exact IH|..]; cbn [Pos.of_uint uint_value Z.of_N];
    apply of_uint_acc_value.
Qed.

Lemma to_uint_value p : uint_value (Pos.to_uint p) 0 = Z.pos p.
Proof. by rewrite <- of_uint_value, DecimalPos.Unsigned.of_to. Qed.

Lemma Atoi_unsigned u :
  u <> Decimal.Nil ->
  uint_value u 0 <= maxInt ->
  Atoi (NilEmpty.string_of_uint u) = (uint_value u 0, nil).
Proof.
  intros Hnil Hmax.
  assert (Hge : 0 <= uint_value u 0) by (rewrite <- of_uint_value; lia).
  assert (Hd := digits_value_string_of_uint u 0).
  destruct u; [done|..]; cbn [NilEmpty.string_of_uint] in *; unfold Atoi;
    rewrite Hd; cbv zeta;
    (rewrite (proj2 (Z.ltb_ge _ _)) by (unfold minInt; lia));
    (rewrite (proj2 (Z.ltb_ge _ _)) by lia); reflexivity.
Qed.

Lemma Atoi_Itoa d : minInt <= d <= maxInt -> Atoi (Itoa d) = (d, nil).
Proof.
  intros [Hmin Hmax]. unfold Itoa. destruct d as [|p|p]; [reflexivity| |].
  - cbn [Z.to_int NilEmpty.string_of_int].
    rewrite Atoi_unsigned; rewrite ?to_uint_value;
      [done|apply DecimalPos.Unsigned.to_uint_nonnil|lia].
  - cbn [Z.to_int NilEmpty.string_of_int].
    pose proof (to_uint_value p) as Hv.
    pose proof (DecimalPos.Unsigned.to_uint_nonnil p) as Hnil.
    assert (Hd := digits_value_string_of_uint (Pos.to_uint p) 0).
    unfold Atoi.
    destruct (Pos.to_uint p); [done|..]; cbn [NilEmpty.string_of_uint] in *;
      rewrite Hd, Hv; cbv zeta;
      (rewrite (proj2 (Z.ltb_ge _ _)) by lia);
      (rewrite (proj2 (Z.ltb_ge _ _)) by (unfold maxInt in *; lia)); reflexivity.
Qed.

(** A piece free of the separator, followed by the separator, is split
    off whole. *)
Lemma splitAt_piece sep p rest : forall cur,
  contains_byte sep p = false ->
  splitAt sep cur (p ++ String sep rest)
  = string_of_list_ascii (rev cur ++ list_ascii_of_string p) :: splitAt sep [] rest.
Proof.
  induction p as [|a p IH]; intros cur Hfree.
  - change (splitAt sep cur (String sep rest) = string_of_list_ascii (rev cur ++ [])
            :: splitAt sep [] rest).
    cbn [splitAt]. rewrite Ascii.eqb_refl. by rewrite app_nil_r.
  - change (splitAt sep cur (String a (p ++ String sep rest))
            = string_of_list_ascii (rev cur ++ a :: list_ascii_of_string p)
              :: splitAt sep [] rest).
    cbn [splitAt]. cbn [contains_byte] in Hfree. apply orb_false_iff in Hfree as [Ha Hp].
    rewrite Ha, (IH (a :: cur) Hp). cbn [rev list_ascii_of_string].
    by rewrite <- app_assoc.
Qed.

Lemma Split_piece sep p rest :
  contains_byte sep p = false ->
  Split (p ++ String sep rest) sep = p :: Split rest sep.
Proof.
  intros Hfree. unfold Split. rewrite splitAt_piece by done.
  cbn [rev app]. by rewrite string_of_list_ascii_of_string.
Qed.

End GoStrings.
Import GoStrings.

Module GoPath.

Definition slash : ascii := "/"%char.

(** [path.Split]: the path up to and including its last slash, and the
    rest. *)
Fixpoint Split (p : string) : string * string :=
  match p with
  | EmptyString => (EmptyString, EmptyString)
  | String a p' =>
      let '(dir, file) := Split p' in
      match dir with
      | EmptyString =>
          if Ascii.eqb a slash then (String a EmptyString, p')
          else (EmptyString, String a p')
      | _ => (String a dir, file)
      end
  end.

(** One element of the path in [path.Clean]; the elements kept so far
    are in [stack], the last one first. *)
Definition cleanStep (rooted : bool) (stack : list string) (elem : string) : list string :=
  if decide (elem = "" \/ elem = ".")%string then stack
  else if decide (elem = "..")%string then
    match stack with
    | top :: rest =>
        if decide (top = "..")%string then elem :: stack else rest
    | [] => if rooted then [] else [elem]
    end
  else elem :: stack.

(** [path.Clean]: empty and [.] elements dropped, [..] resolved against
    the element before it, [.] for an empty result. *)
Definition Clean (p : string) : string :=
  match p with
  | EmptyString => "."%string
  | String a _ =>
      let rooted := Ascii.eqb a slash in
      let stack := fold_left (cleanStep rooted) (GoStrings.Split p slash) [] in
      let body := GoStrings.Join (rev stack) "/" in
      let out := if rooted then String slash body else body in
      match out with
      | EmptyString => "."%string
      | _ => out
      end
  end.

(** [path.Join] of two elements. *)
Definition Join (a b : string) : string :=
  match a, b with
  | EmptyString, EmptyString => EmptyString
  | EmptyString, _ => Clean b
  | _, _ => Clean (a ++ "/" ++ b)
  end.

Example path_Split_values :
  (Split "/tmp/testFile123", Split "name", Split "dir/", Split "")
  = (("/tmp/", "testFile123"), ("", "name"), ("dir/", ""), ("", ""))%string.
Proof. reflexivity. Qed.

Example Clean_values :
  (Clean "a//b/./c/..", Clean "/../a", Clean "../../x", Clean "a/..", Clean "/",
   Clean "a/b/../../..")
  = ("a/b", "/a", "../../x", ".", "/", "..")%string.
Proof. reflexivity. Qed.

Example Join_values :
  (Join "/cli" "a.txt", Join "/cli/" "a.txt", Join "" "a", Join "/cli" "", Join "" "")
  = ("/cli/a.txt", "/cli/a.txt", "a", "/cli", "")%string.
Proof. reflexivity. Qed.

End GoPath.

(** ** [sort.Strings] as the client calls it *)

Module GoSort.

(** The order of Go's [<=] on strings: byte by byte. *)
Definition string_le (a b : string) : Prop := String.leb a b = true.

#[global] Instance string_le_dec a b : Decision (string_le a b).
Proof. unfold string_le. apply _. Defined.

(** [sort.Strings]: the strings in increasing order. *)
Definition Strings (l : list string) : list string := merge_sort string_le l.

Lemma ascii_compare_Lt_trans a b c :
  Ascii.compare a b = Lt -> Ascii.compare b c = Lt -> Ascii.compare a c = Lt.
Proof.
  unfold Ascii.compare. rewrite !N.compare_lt_iff. lia.
Qed.

Lemma string_leb_trans : forall a b c,
  String.leb a b = true -> String.leb b c = true -> String.leb a c = true.
Proof.
  unfold String.leb.
  induction a as [|x a IH]; intros [|y b] [|z c]; cbn [String.compare]; try done.
  destruct (Ascii.compare x y) eqn:Hxy; [| |done].
  - apply Ascii.compare_eq_iff in Hxy as ->.
    destruct (Ascii.compare y z); [apply IH|done|done].
  - destruct (Ascii.compare y z) eqn:Hyz; [| |done].
    + apply Ascii.compare_eq_iff in Hyz as ->. by rewrite Hxy.
    + by rewrite (ascii_compare_Lt_trans _ _ _ Hxy Hyz).
Qed.

#[global] Instance string_le_trans : Transitive string_le.
Proof. intros a b c. apply string_leb_trans. Qed.

#[global] Instance string_le_total : Total string_le.
Proof. intros a b. apply String.leb_total. Qed.

#[global] Instance string_le_antisymm : AntiSymm (=) string_le.
Proof. intros a b. apply String.leb_antisym. Qed.

Example Strings_values :
  Strings ["b"; "a"; "B"; "ab"; ""]%string = [""; "B"; "a"; "ab"; "b"]%string.
Proof. reflexivity. Qed.

(** The sorted list of given elements is one list, in whatever order
    they are handed to [sort.Strings]. *)
Lemma Strings_perm l1 l2 : l1 ≡ₚ l2 -> Strings l1 = Strings l2.
Proof.
  intros Hperm. unfold Strings.
  apply (Sorted_unique string_le); [apply Sorted_merge_sort; apply _..|].
  by rewrite !merge_sort_Permutation.
Qed.

End GoSort.

(** ** float64 *)

Module Float64.

Definition float64 : Type := spec_float.

(** The conversion [float64(i)] of an integer, rounding to nearest even. *)
Definition of_int (i : Z) : float64 := binary_normalize 53 1024 i 0 false.

Definition div (x y : float64) : float64 := SFdiv 53 1024 x y.

Definition zero : float64 := S754_zero false.
Definition NaN : float64 := S754_nan.
Definition posInf : float64 := S754_infinity false.

Definition is_finite (x : float64) : bool :=
  match x with
  | S754_zero _ | S754_finite _ _ _ => true
  | S754_infinity _ | S754_nan => false
  end.

Example one_half : div (of_int 1) (of_int 2) = S754_finite false 4503599627370496 (-53).
Proof. reflexivity. Qed.

Definition is_negative (x : float64) : bool :=
  match x with
  | S754_zero s | S754_infinity s | S754_finite s _ _ => s
  | S754_nan => false
  end.

Lemma binary_round_aux_sign mx ex lx :
  is_negative (binary_round_aux 53 1024 false mx ex lx) = false.
Proof.
  unfold binary_round_aux.
  destruct (shr_fexp 53 1024 mx ex lx) as [mrs' e'].
  destruct (shr_fexp 53 1024 _ e' loc_Exact) as [mrs'' e''].
  destruct (shr_m mrs'') as [|m|m]; [reflexivity| |reflexivity].
  destruct (Z.leb e'' (1024 - 53)); reflexivity.
Qed.

Lemma of_int_nonneg i : 0 <= i -> is_negative (of_int i) = false.
Proof.
  intros Hi. destruct i as [|p|p]; [reflexivity| |lia].
  unfold of_int, binary_normalize, binary_round.
  destruct (shl_align p 0 _) as [mz ez]. apply binary_round_aux_sign.
Qed.

(** A division by zero never gives a finite number. *)
Lemma div_zero_not_finite x : is_finite (div x (of_int 0)) = false.
Proof. destruct x as [s|s| |s m e]; reflexivity. Qed.

Lemma div_zero_nonneg x :
  is_negative x = false -> div x (of_int 0) = NaN \/ div x (of_int 0) = posInf.
Proof.
  destruct x as [s|s| |s m e]; cbn; intros Hs; rewrite ?Hs; auto.
Qed.

Lemma div_zero_zero : div (of_int 0) (of_int 0) = NaN.
Proof. reflexivity. Qed.

End Float64.

(** ** The prototype client *)

Module Client.
Import Indexer Float64.

(** The methods of [*server.Server] that the client calls.  The methods
    that only read ([GetKeyHalf], [GetSalts], [GetSize],
    [ReadLookupTable], [GetFile], [SearchWord]) leave the server as it
    is. *)
Class ServerInterface (Server : Type) := {
  GetKeyHalf : Server -> Z -> bytes;
  GetSalts : Server -> list bytes;
  GetSize : Server -> Z;
  ReadLookupTable : Server -> option bytes;
  server_AddFile : Server -> string -> Z * error * Server;
  WriteLookupTable : Server -> bytes -> Server;
  WriteIndex : Server -> SecureIndex -> error * Server;
  GetFile : Server -> Z -> string * error;
  server_SearchWord : Server -> list bytes -> list Z
}.

Record Client := mkClient {
  directory : string;
  indexer : SecureIndexBuilder;
  lookupTable : gmap string string;
  reverseLookup : gmap string string
}.

Definition NUL : ascii := ascii_of_nat 0.

(** The operating system refuses a path that holds a NUL byte. *)
Definition validPath (p : string) : bool := negb (contains_byte NUL p).

(** A command-line argument that grep cannot take for an option: it does
    not begin with a dash.  [searchWordHelper] passes the word and the
    paths right after [-lZw], with neither [-e] nor [--] before them, so
    an argument that begins with a dash is read as options, and the first
    of the remaining arguments as the pattern. *)
Definition plainArg (a : string) : bool :=
  match a with
  | String first _ => negb (Ascii.eqb first "-")
  | EmptyString => true
  end.

Section WithEnvironment.

Context {Server : Type} `{ServerInterface Server}.

(** What the client sees of the world: the server it is connected to,
    and the local disk, a file being identified by its path. *)
Record World := mkWorld {
  server : Server;
  files : gmap string string;
  dirs : gset string
}.

(** The keyed hash of the indexer, the folder's n and the padding
    encoding, as in [Indexer]. *)
Variable prf : bytes -> bytes -> bytes.
Variable numUniqWords : Z.
Variable padWord : Z -> nat -> bytes.

(** [util.XorBytes], [json.Marshal] and [json.Unmarshal] (into an
    existing map). *)
Variable XorBytes : bytes -> bytes -> nat -> bytes.
Variable json_Marshal : gmap string string -> bytes * error.
Variable json_Unmarshal : bytes -> gmap string string -> gmap string string.

(** Where the disk refuses to create a file or a directory. *)
Variable createFails : string -> bool.
Variable mkdirFails : string -> bool.

(** The standard output of the grep process started with these
    arguments on this disk.  Nothing is assumed of it here; what grep does
    when it reads none of its arguments as an option is [grepLaw] below,
    a hypothesis of the statements that need it. *)
Variable grepOutput : World -> list string -> string.

(** Whether [grep -w] with this pattern selects a line of a file with this
    content. *)
Variable grepMatch : string -> string -> bool.

(** The order in which [range] visits a map: some enumeration of its
    entries. *)
Variable mapRange : gmap string string -> list (string * string).
Hypothesis mapRange_perm : forall m, mapRange m ≡ₚ map_to_list m.

Definition setServer (W : World) (s : Server) : World :=
  {| server := s; files := files W; dirs := dirs W |}.

Definition setFile (W : World) (p content : string) : World :=
  {| server := server W; files := <[p := content]> (files W); dirs := dirs W |}.

(** [os.Stat(p)] returns no error. *)
Definition os_exists (W : World) (p : string) : bool :=
  validPath p && (bool_decide (is_Some (files W !! p)) || bool_decide (p ∈ dirs W)).

(** [os.IsNotExist] of the error of [os.Stat(p)]: the path is one the
    system accepts, and nothing is there. *)
Definition os_notExist (W : World) (p : string) : bool :=
  validPath p && negb (os_exists W p).

Definition ioutil_ReadFile (W : World) (p : string) : string * error :=
  if validPath p then
    match files W !! p with
    | Some content => (content, nil)
    | None =>
        if bool_decide (p ∈ dirs W) then (EmptyString, errors_New "is a directory")
        else (EmptyString, errors_New "no such file or directory")
    end
  else (EmptyString, errors_New "invalid argument").

(** [os.Create(p)]: the file exists and is empty afterwards. *)
Definition os_Create (W : World) (p : string) : error * World :=
  if negb (validPath p) then (errors_New "invalid argument", W)
  else if bool_decide (p ∈ dirs W) then (errors_New "is a directory", W)
  else if createFails p then (errors_New "cannot create", W)
  else (nil, setFile W p EmptyString).

Definition os_Mkdir (W : World) (p : string) : error * World :=
  if negb (validPath p) || mkdirFails p then (errors_New "cannot mkdir", W)
  else (nil, {| server := server W; files := files W; dirs := {[p]} ∪ dirs W |}).

(** The loop [for key, value := range c.lookupTable] of [CreateClient]. *)
Definition reverseOf (entries : list (string * string)) : gmap string string :=
  fold_left (fun m kv => <[snd kv := fst kv]> m) entries ∅.

Definition CreateClient (W : World) (clientNum : Z) (directory : string)
    : outcome (Client * World) :=
  let s := server W in
  let serverKeyHalf := GetKeyHalf s clientNum in
  let ms := XorBytes (Sha256.sum256 (list_byte_of_string (Itoa clientNum)))
                     serverKeyHalf (List.length serverKeyHalf) in
  let sib := CreateSecureIndexBuilder ms (GetSalts s) (GetSize s) in
  let table :=
    match ReadLookupTable s with
    | Some tableContent => json_Unmarshal tableContent ∅
    | None => ∅
    end in
  let reverse :=
    match ReadLookupTable s with
    | Some _ => reverseOf (mapRange table)
    | None => ∅
    end in
  let c := {| directory := directory; indexer := sib;
              lookupTable := table; reverseLookup := reverse |} in
  if os_notExist W directory then
    match os_Mkdir W directory with
    | (None, W') => Returned (c, W')
    | (Some _, _) => Panicked
    end
  else Returned (c, W).

Definition AddFile (c : Client) (W : World) (filename : string)
    : error * Client * World :=
  let file := snd (GoPath.Split filename) in
  match reverseLookup c !! file with
  | Some _ => (errors_New "file already exists", c, W)
  | None =>
      match ioutil_ReadFile W filename with
      | (_, Some err) => (Some err, c, W)
      | (content, None) =>
          match server_AddFile (server W) content with
          | (_, Some err, s1) => (Some err, c, setServer W s1)
          | (docID, None, s1) =>
              let c1 := {| directory := directory c; indexer := indexer c;
                           lookupTable := <[Itoa docID := file]> (lookupTable c);
                           reverseLookup := <[file := Itoa docID]> (reverseLookup c) |} in
              match json_Marshal (lookupTable c1) with
              | (_, Some err) => (Some err, c1, setServer W s1)
              | (table, None) =>
                  let W2 := setServer W (WriteLookupTable s1 table) in
                  match ioutil_ReadFile W2 filename with
                  | (_, Some err) => (Some err, c1, W2)
                  | (infile, None) =>
                      let si := BuildSecureIndex prf numUniqWords padWord (indexer c1)
                                  docID infile (Z.of_nat (String.length content)) in
                      match WriteIndex (server W2) si with
                      | (Some err, s3) => (Some err, c1, setServer W2 s3)
                      | (None, s3) =>
                          let W3 := setServer W2 s3 in
                          match os_Create W3 (GoPath.Join (directory c1) file) with
                          | (Some err, _) => (Some err, c1, W3)
                          | (None, W4) =>
                              let copied :=
                                match files W4 !! filename with
                                | Some data => data
                                | None => EmptyString
                                end in
                              (nil, c1, setFile W4 (GoPath.Join (directory c1) file) copied)
                          end
                      end
                  end
              end
          end
      end
  end.

Definition getFile (c : Client) (W : World) (docID : Z) : error * World :=
  match lookupTable c !! Itoa docID with
  | None => (errors_New "invalid document ID", W)
  | Some name =>
      let filename := GoPath.Join (directory c) name in
      if os_exists W filename then (nil, W)
      else
        match GetFile (server W) docID with
        | (_, Some err) => (Some err, W)
        | (content, None) =>
            match os_Create W filename with
            | (Some err, _) => (Some err, W)
            | (None, W1) => (nil, setFile W1 filename content)
            end
        end
  end.

(** The path [searchWordHelper] passes to grep for a document. *)
Definition localPath (c : Client) (docID : Z) : string :=
  GoPath.Join (directory c)
    (match lookupTable c !! Itoa docID with Some name => name | None => EmptyString end).

(** The first loop of [searchWordHelper]: every candidate is fetched,
    and the first error ends the search. *)
Fixpoint fetchAll (c : Client) (W : World) (possibleDocs : list Z)
    : error * World * list string :=
  match possibleDocs with
  | [] => (nil, W, [])
  | docID :: rest =>
      match getFile c W docID with
      | (Some err, W1) => (Some err, W1, [])
      | (None, W1) =>
          let '(err, W2, args) := fetchAll c W1 rest in
          (err, W2, localPath c docID :: args)
      end
  end.

Definition grepAccepts (W : World) (word p : string) : bool :=
  match files W !! p with
  | Some content => grepMatch word content
  | None => false
  end.

Fixpoint terminated (names : list string) : string :=
  match names with
  | [] => EmptyString
  | p :: rest => (p ++ String NUL (terminated rest))%string
  end.

(** [exec.Command("grep", args...).Output()], the error dropped as the
    client drops it: the process cannot be started with a NUL byte in an
    argument, and the output is then empty. *)
Definition exec_grep (W : World) (args : list string) : string :=
  if forallb validPath args then grepOutput W args else EmptyString.

(** What grep does with [-lZw], a pattern and paths, when neither the
    pattern nor a path begins with a dash: it writes the name of every
    file with a selected line, in the order of the arguments, each
    followed by a NUL byte; a path that is no file is passed over.  An
    argument that begins with a dash is outside this law: grep reads it
    as options, and [grepOutput] is left free there. *)
Definition grepLaw : Prop :=
  forall (W : World) (word : string) (paths : list string),
    forallb plainArg (word :: paths) = true ->
    grepOutput W ("-lZw"%string :: word :: paths)
    = terminated (List.filter (grepAccepts W word) paths).

Definition searchWordHelper (c : Client) (W : World) (word : string)
    (possibleDocs : list Z) : list string * float64 * error * World :=
  match fetchAll c W possibleDocs with
  | (Some err, W1, _) => ([], Float64.zero, Some err, W1)
  | (None, W1, args) =>
      let output := exec_grep W1 ("-lZw"%string :: word :: args) in
      let pieces := GoStrings.Split output NUL in
      let filenames := map (fun f => snd (GoPath.Split f))
                           (take (List.length pieces - 1) pieces) in
      let rate :=
        Float64.div
          (Float64.of_int (Z.of_nat (List.length possibleDocs)
                           - Z.of_nat (List.length filenames)))
          (Float64.of_int (Z.of_nat (size (lookupTable c))
                           - Z.of_nat (List.length filenames))) in
      (filenames, rate, nil, W1)
  end.

Definition SearchWord (c : Client) (W : World) (word : string)
    : list string * float64 * error * World :=
  let possibleDocs :=
    server_SearchWord (server W) (ComputeTrapdoors prf (indexer c) word) in
  searchWordHelper c W word possibleDocs.

(** The loop of [SearchWordNaive]: the keys are parsed in the order
    [range] visits them, and the first key that is no number ends the
    search. *)
Fixpoint parseDocIDs (keys : list string) : option (list Z) :=
  match keys with
  | [] => Some []
  | k :: rest =>
      match Atoi k with
      | (_, Some _) => None
      | (docIDInt, None) =>
          match parseDocIDs rest with
          | Some ds => Some (docIDInt :: ds)
          | None => None
          end
      end
  end.

Definition SearchWordNaive (c : Client) (W : World) (word : string)
    : list string * float64 * error * World :=
  match parseDocIDs (map fst (mapRange (lookupTable c))) with
  | None => ([], Float64.zero, errors_New "invalid docID: not a number", W)
  | Some possibleDocs => searchWordHelper c W word possibleDocs
  end.

(** [GetFilenames]: the keys of the reverse table, copied in the order
    [range] visits them and then sorted. *)
Definition GetFilenames (c : Client) : list string :=
  GoSort.Strings (map fst (mapRange (reverseLookup c))).

(** *** The states and worlds on which the two searches are compared *)

(** A key as [AddFile] writes it: the decimal form of a docID. *)
Definition isDocKey (k : string) : bool :=
  match Atoi k with
  | (d, None) => bool_decide (Itoa d = k)
  | (_, Some _) => false
  end.

Definition wfKeys (c : Client) : Prop :=
  forall k name, lookupTable c !! k = Some name -> isDocKey k = true.

(** Distinct entries of the lookup table are kept in distinct local
    files. *)
Definition distinctPaths (c : Client) : Prop :=
  forall k1 k2 n1 n2,
    lookupTable c !! k1 = Some n1 -> lookupTable c !! k2 = Some n2 ->
    GoPath.Join (directory c) n1 = GoPath.Join (directory c) n2 -> k1 = k2.

(** [getFile] has what it needs for this document: an entry in the
    lookup table and either the local file or a download and a place to
    write it. *)
Definition fetchable (c : Client) (W : World) (docID : Z) : Prop :=
  is_Some (lookupTable c !! Itoa docID) /\
  (os_exists W (localPath c docID) = true \/
   (snd (GetFile (server W) docID) = nil /\
    fst (os_Create W (localPath c docID)) = nil)).

(** The copy of a document that grep is shown: the local file when
    there is one, the server's document otherwise. *)
Definition localCopy (c : Client) (W : World) (docID : Z) : option string :=
  match files W !! localPath c docID with
  | Some content => Some content
  | None =>
      if os_exists W (localPath c docID) then None
      else Some (fst (GetFile (server W) docID))
  end.

Definition docMatches (c : Client) (W : World) (word : string) (docID : Z) : bool :=
  match localCopy c W docID with
  | Some content => grepMatch word content
  | None => false
  end.

(** The docIDs [SearchWordNaive] reads off the keys. *)
Definition naiveDocs (c : Client) : list Z :=
  map (fun k => fst (Atoi k)) (map fst (mapRange (lookupTable c))).

(** *** Two clients, one master secret *)

(** The trapdoor of a word depends on the builder through its master
    secret and its salts only. *)
Lemma ComputeTrapdoors_ext (sibA sibB : SecureIndexBuilder) (w : string) :
  sib_ms sibA = sib_ms sibB ->
  sib_salts sibA = sib_salts sibB ->
  ComputeTrapdoors prf sibA w = ComputeTrapdoors prf sibB w.
Proof.
  intros Hms Hsalts. unfold ComputeTrapdoors, trapdoorOf.
  by rewrite Hms, Hsalts.
Qed.

(** The local path of every document begins with a slash, not a dash,
    when the client's directory is an absolute path. *)
Lemma localPath_absolute c d rest :
  directory c = String GoPath.slash rest -> plainArg (localPath c d) = true.
Proof.
  intros Hdir. unfold localPath, GoPath.Join. rewrite Hdir.
  set (name := match lookupTable c !! Itoa d with
               | Some name => name | None => EmptyString end).
  change ((String GoPath.slash rest ++ "/" ++ name)%string)
    with (String GoPath.slash (rest ++ "/" ++ name)%string).
  unfold GoPath.Clean. change (Ascii.eqb GoPath.slash GoPath.slash) with true.
  cbv iota zeta. reflexivity.
Qed.

(** The builder [CreateClient] sets up. *)
Lemma CreateClient_indexer W clientNum dir c W' :
  CreateClient W clientNum dir = Returned (c, W') ->
  indexer c
  = CreateSecureIndexBuilder
      (XorBytes (Sha256.sum256 (list_byte_of_string (Itoa clientNum)))
                (GetKeyHalf (server W) clientNum)
                (List.length (GetKeyHalf (server W) clientNum)))
      (GetSalts (server W)) (GetSize (server W)).
Proof.
  unfold CreateClient. destruct (os_notExist W dir).
  - destruct (os_Mkdir W dir) as [[e|] W'']; [discriminate|].
    intros [= <- _]. reflexivity.
  - intros [= <- _]. reflexivity.
Qed.

(** Clients created on one server share the salts and the size; they
    compute the same trapdoors as soon as their key halves combine to the
    same master secret. *)
Lemma CreateClient_same_trapdoors W1 W2 n1 n2 dir1 dir2 c1 c2 W1' W2' w :
  server W1 = server W2 ->
  CreateClient W1 n1 dir1 = Returned (c1, W1') ->
  CreateClient W2 n2 dir2 = Returned (c2, W2') ->
  sib_ms (indexer c1) = sib_ms (indexer c2) ->
  ComputeTrapdoors prf (indexer c1) w = ComputeTrapdoors prf (indexer c2) w.
Proof.
  intros Hsrv H1%CreateClient_indexer H2%CreateClient_indexer Hms.
  apply ComputeTrapdoors_ext; [done|].
  rewrite H1, H2. cbn. by rewrite Hsrv.
Qed.

(** C3: the trapdoor a client computes for a word is a function of the
    master secret, the ordered salts and the word alone: it is the tuple
    [prf s (prf MS w)], s running over the salts in order, whatever the
    builder's size and the client's directory and tables are.  Hence two
    clients whose builders hold the same master secret and the same salts
    compute byte for byte the same trapdoor for every word; and so do two
    clients that [CreateClient] made, under whatever client numbers, in
    whatever directories and worlds, once their servers hand out the same
    salts and their key halves combine to the same master secret. *)
Theorem ComputeTrapdoors_same_for_clients :
  (forall (A : Client) (w : string),
     ComputeTrapdoors prf (indexer A) w
     = map (fun s => prf s (prf (sib_ms (indexer A)) (list_byte_of_string w)))
           (sib_salts (indexer A)))
  /\ (forall (A B : Client) (w : string),
        sib_ms (indexer A) = sib_ms (indexer B) ->
        sib_salts (indexer A) = sib_salts (indexer B) ->
        ComputeTrapdoors prf (indexer A) w = ComputeTrapdoors prf (indexer B) w)
  /\ (forall W1 W2 n1 n2 dir1 dir2 (A B : Client) W1' W2' (w : string),
        CreateClient W1 n1 dir1 = Returned (A, W1') ->
        CreateClient W2 n2 dir2 = Returned (B, W2') ->
        GetSalts (server W1) = GetSalts (server W2) ->
        XorBytes (Sha256.sum256 (list_byte_of_string (Itoa n1)))
                 (GetKeyHalf (server W1) n1) (List.length (GetKeyHalf (server W1) n1))
        = XorBytes (Sha256.sum256 (list_byte_of_string (Itoa n2)))
                   (GetKeyHalf (server W2) n2) (List.length (GetKeyHalf (server W2) n2)) ->
        ComputeTrapdoors prf (indexer A) w = ComputeTrapdoors prf (indexer B) w).
Proof.
  split; [reflexivity|]. split.
  - intros A B w Hms Hsalts. by apply ComputeTrapdoors_ext.
  - intros W1 W2 n1 n2 dir1 dir2 A B W1' W2' w HA%CreateClient_indexer
      HB%CreateClient_indexer Hsalts Hms.
    apply ComputeTrapdoors_ext; rewrite HA, HB;
      cbn [CreateSecureIndexBuilder sib_ms sib_salts]; done.
Qed.

(** *** [AddFile] *)

Lemma AddFile_guard c W filename :
  is_Some (reverseLookup c !! snd (GoPath.Split filename)) ->
  AddFile c W filename = (errors_New "file already exists", c, W).
Proof. intros [docID Hfound]. unfold AddFile. by rewrite Hfound. Qed.

(** Once [AddFile] has returned without error, the file's base name has
    its entry in the reverse table. *)
Lemma AddFile_records c W filename c1 W1 :
  AddFile c W filename = (nil, c1, W1) ->
  is_Some (reverseLookup c1 !! snd (GoPath.Split filename)).
Proof.
  unfold AddFile.
  destruct (reverseLookup c !! _) as [?|]; [discriminate|].
  destruct (ioutil_ReadFile W filename) as [content [?|]]; [discriminate|].
  destruct (server_AddFile (server W) content) as [[docID [?|]] s1]; [discriminate|].
  destruct (json_Marshal _) as [table [?|]]; [discriminate|].
  destruct (ioutil_ReadFile _ filename) as [infile [?|]]; [discriminate|].
  destruct (WriteIndex _ _) as [[?|] s3]; [discriminate|].
  destruct (os_Create _ _) as [[?|] W4]; [discriminate|].
  intros [= <- _]. cbn [reverseLookup]. rewrite lookup_insert_eq. by eexists.
Qed.

(** C10: when the reverse table already holds the base name of the path,
    [AddFile] returns the error "file already exists" and leaves the
    client's tables and the world, server included, as they were; hence
    after an [AddFile] that returned without error, adding the same path
    again fails with that error, whatever has happened to the world in
    between. *)
Theorem AddFile_already_exists :
  (forall c W filename,
     is_Some (reverseLookup c !! snd (GoPath.Split filename)) ->
     AddFile c W filename = (errors_New "file already exists", c, W))
  /\ (forall c W filename c1 W1 W2,
        AddFile c W filename = (nil, c1, W1) ->
        AddFile c1 W2 filename = (errors_New "file already exists", c1, W2)).
Proof.
  split.
  - apply AddFile_guard.
  - intros c W filename c1 W1 W2 Hfirst. apply AddFile_guard.
    by eapply AddFile_records.
Qed.

(** *** [searchWordHelper] *)

Lemma Split_terminated names :
  forallb validPath names = true ->
  GoStrings.Split (terminated names) NUL = names ++ [EmptyString].
Proof.
  induction names as [|p names IH]; cbn [forallb terminated app]; [done|].
  intros [Hp Hnames]%andb_true_iff.
  rewrite Split_piece, IH; [done|done|].
  unfold validPath in Hp. by apply negb_true_iff in Hp.
Qed.

Lemma forallb_validPath_filter f paths :
  forallb validPath paths = true -> forallb validPath (List.filter f paths) = true.
Proof.
  rewrite !forallb_forall. intros Hall p [Hp _]%filter_In. by apply Hall.
Qed.

(** What the client reads back from grep's output when no argument can be
    taken for an option: the paths grep selected, or nothing when the
    process could not be started. *)
Lemma grep_pieces W word paths :
  grepLaw -> forallb plainArg (word :: paths) = true ->
  let pieces := GoStrings.Split (exec_grep W ("-lZw"%string :: word :: paths)) NUL in
  take (List.length pieces - 1) pieces
  = if forallb validPath (word :: paths)
    then List.filter (grepAccepts W word) paths else [].
Proof.
  intros Hlaw Hplain. unfold exec_grep.
  change (forallb validPath ("-lZw"%string :: word :: paths))
    with (forallb validPath (word :: paths)).
  destruct (forallb validPath (word :: paths)) eqn:Hvalid; [|done].
  cbn [forallb] in Hvalid. apply andb_true_iff in Hvalid as [_ Hpaths].
  cbn zeta. rewrite (Hlaw W word paths Hplain).
  rewrite Split_terminated by by apply forallb_validPath_filter.
  rewrite length_app. cbn [List.length].
  replace (List.length (List.filter (grepAccepts W word) paths) + 1 - 1)%nat
    with (List.length (List.filter (grepAccepts W word) paths)) by lia.
  by rewrite take_app_length.
Qed.

Lemma fetchAll_args c : forall ds W W' args,
  fetchAll c W ds = (nil, W', args) -> args = map (localPath c) ds.
Proof.
  induction ds as [|d ds IH]; intros W W' args; cbn [fetchAll map].
  - by intros [= _ <-].
  - destruct (getFile c W d) as [[e|] W1]; [discriminate|].
    destruct (fetchAll c W1 ds) as [[err W2] args'] eqn:Hrest.
    intros [= -> -> <-]. f_equal. by eapply IH.
Qed.

(** The names returned after a successful fetch, and the rate computed
    from them, when no argument can be taken for an option. *)
Lemma searchWordHelper_success c W word ds W' args :
  grepLaw -> forallb plainArg (word :: args) = true ->
  fetchAll c W ds = (nil, W', args) ->
  let accepted :=
    if forallb validPath (word :: args)
    then List.filter (grepAccepts W' word) args else [] in
  let filenames := map (fun f => snd (GoPath.Split f)) accepted in
  searchWordHelper c W word ds
  = (filenames,
     Float64.div
       (Float64.of_int (Z.of_nat (List.length ds) - Z.of_nat (List.length filenames)))
       (Float64.of_int (Z.of_nat (size (lookupTable c))
                        - Z.of_nat (List.length filenames))),
     nil, W').
Proof.
  intros Hlaw Hplain Hfetch. unfold searchWordHelper. rewrite Hfetch.
  pose proof (grep_pieces W' word args Hlaw Hplain) as Hpieces.
  cbn zeta in Hpieces. by rewrite Hpieces.
Qed.

(** The arguments after [-lZw] when neither the word nor the local path
    of a candidate begins with a dash. *)
Lemma plain_arguments c word ds :
  plainArg word = true ->
  (forall d, d ∈ ds -> plainArg (localPath c d) = true) ->
  forallb plainArg (word :: map (localPath c) ds) = true.
Proof.
  intros Hword Hpaths. cbn [forallb]. rewrite Hword. cbn [andb].
  apply forallb_forall. intros p Hp%list_elem_of_In.
  apply list_elem_of_fmap in Hp as (d & -> & Hd). by apply Hpaths.
Qed.

(** The rate is computed from the names read back, whatever grep wrote. *)
Lemma searchWordHelper_rate c W word ds files rate W' :
  searchWordHelper c W word ds = (files, rate, nil, W') ->
  rate = Float64.div
           (Float64.of_int (Z.of_nat (List.length ds) - Z.of_nat (List.length files)))
           (Float64.of_int (Z.of_nat (size (lookupTable c))
                            - Z.of_nat (List.length files))).
Proof.
  unfold searchWordHelper.
  destruct (fetchAll c W ds) as [[[e|] W1] args]; [discriminate|].
  cbv zeta. by intros [= <- <- _].
Qed.

(** No more names than candidates, when no argument can be taken for an
    option. *)
Lemma searchWordHelper_count c W word ds files rate W' :
  grepLaw -> plainArg word = true ->
  (forall d, d ∈ ds -> plainArg (localPath c d) = true) ->
  searchWordHelper c W word ds = (files, rate, nil, W') ->
  (List.length files <= List.length ds)%nat.
Proof.
  intros Hlaw Hword Hpaths.
  destruct (fetchAll c W ds) as [[[e|] W1] args] eqn:Hfetch.
  { unfold searchWordHelper. rewrite Hfetch. discriminate. }
  pose proof (fetchAll_args _ _ _ _ _ Hfetch) as Hargs. subst args.
  rewrite (searchWordHelper_success _ _ _ _ _ _ Hlaw
             (plain_arguments c word ds Hword Hpaths) Hfetch).
  cbn zeta. intros [= <- _ _].
  rewrite length_map.
  match goal with |- context [if ?b then _ else _] => destruct b end;
    cbn [List.length]; [|lia].
  etransitivity; [apply filter_length_le|]. by rewrite length_map.
Qed.

Lemma mapRange_empty : mapRange ∅ = [].
Proof.
  apply Permutation_nil_r. rewrite mapRange_perm. by rewrite map_to_list_empty.
Qed.

(** C9: the rate [searchWordHelper] returns is the quotient of
    len(possibleDocs) - len(filenames) by len(lookupTable) - len(filenames),
    whatever the divisor is; when grep names as many files as the lookup
    table has entries the divisor is zero and the result is never a finite
    number; it is NaN or +Inf when grep reads the word as its pattern and
    the candidates' paths as files (none begins with a dash, [grepLaw]),
    for it then names no more files than there are candidates; and there
    are such inputs: on a client whose lookup table is empty the naive
    search for such a word returns NaN. *)
Theorem fp_rate_unguarded :
  (forall c W word ds files rate W',
     searchWordHelper c W word ds = (files, rate, nil, W') ->
     rate = Float64.div
              (Float64.of_int (Z.of_nat (List.length ds) - Z.of_nat (List.length files)))
              (Float64.of_int (Z.of_nat (size (lookupTable c))
                               - Z.of_nat (List.length files))))
  /\ (forall c W word ds files rate W',
        searchWordHelper c W word ds = (files, rate, nil, W') ->
        List.length files = size (lookupTable c) ->
        Float64.is_finite rate = false)
  /\ (forall c W word ds files rate W',
        grepLaw -> plainArg word = true ->
        (forall d, d ∈ ds -> plainArg (localPath c d) = true) ->
        searchWordHelper c W word ds = (files, rate, nil, W') ->
        List.length files = size (lookupTable c) ->
        rate = Float64.NaN \/ rate = Float64.posInf)
  /\ (forall c W word,
        grepLaw -> plainArg word = true ->
        lookupTable c = ∅ ->
        SearchWordNaive c W word = ([], Float64.NaN, nil, W)).
Proof.
  split; [|split; [|split]].
  - intros c W word ds files rate W' Hrun.
    by apply searchWordHelper_rate in Hrun.
  - intros c W word ds files rate W' Hrun Hall.
    apply searchWordHelper_rate in Hrun as ->.
    rewrite <- Hall, Z.sub_diag. apply div_zero_not_finite.
  - intros c W word ds files rate W' Hlaw Hword Hpaths Hrun Hall.
    pose proof (searchWordHelper_count _ _ _ _ _ _ _ Hlaw Hword Hpaths Hrun) as Hle.
    apply searchWordHelper_rate in Hrun as ->.
    rewrite <- Hall, Z.sub_diag.
    apply div_zero_nonneg, of_int_nonneg. lia.
  - intros c W word Hlaw Hword Hempty. unfold SearchWordNaive.
    rewrite Hempty, mapRange_empty. cbn [map parseDocIDs].
    rewrite (searchWordHelper_success c W word [] W [] Hlaw);
      [|by cbn [forallb]; rewrite Hword|done].
    rewrite Hempty, map_size_empty. cbn [forallb andb].
    by destruct (validPath word).
Qed.

(** *** [SearchWord] against [SearchWordNaive] *)

Lemma localPath_entry c d name :
  lookupTable c !! Itoa d = Some name ->
  localPath c d = GoPath.Join (directory c) name.
Proof. intros Hname. unfold localPath. by rewrite Hname. Qed.

Lemma os_exists_valid W p : os_exists W p = true -> validPath p = true.
Proof. unfold os_exists. by intros [? _]%andb_true_iff. Qed.

Lemma os_exists_setFile_ne W p q content :
  q <> p -> os_exists (setFile W p content) q = os_exists W q.
Proof.
  intros Hne. unfold os_exists, setFile. cbn [files dirs].
  by rewrite lookup_insert_ne.
Qed.

Lemma os_exists_setFile_eq W p content :
  validPath p = true -> os_exists (setFile W p content) p = true.
Proof.
  intros Hvalid. unfold os_exists, setFile. cbn [files dirs].
  rewrite Hvalid, lookup_insert_eq. cbn [andb].
  rewrite bool_decide_eq_true_2 by by eexists. done.
Qed.

Lemma os_Create_ok W p W1 :
  os_Create W p = (nil, W1) ->
  validPath p = true /\ W1 = setFile W p EmptyString.
Proof.
  unfold os_Create. destruct (validPath p); cbn [negb]; [|discriminate].
  destruct (bool_decide (p ∈ dirs W)); [discriminate|].
  destruct (createFails p); [discriminate|]. by intros [= <-].
Qed.

Lemma os_Create_fst_setFile W p q content :
  fst (os_Create (setFile W q content) p) = fst (os_Create W p).
Proof.
  unfold os_Create, setFile. cbn [dirs].
  destruct (validPath p); cbn [negb]; [|done].
  destruct (bool_decide (p ∈ dirs W)); [done|].
  by destruct (createFails p).
Qed.

(** What one successful [getFile] does to the world. *)
Lemma getFile_fetchable c W d :
  fetchable c W d ->
  exists W1,
    getFile c W d = (nil, W1)
    /\ (W1 = W \/
        (os_exists W (localPath c d) = false /\
         W1 = setFile (setFile W (localPath c d) EmptyString) (localPath c d)
                      (fst (GetFile (server W) d))))
    /\ os_exists W1 (localPath c d) = true
    /\ files W1 !! localPath c d = localCopy c W d.
Proof.
  intros [[name Hname] Hcan]. unfold getFile, localCopy.
  rewrite (localPath_entry _ _ _ Hname) in *. rewrite Hname.
  set (p := GoPath.Join (directory c) name) in *.
  destruct (os_exists W p) eqn:Hex.
  - exists W. repeat split; [by left|done|].
    by destruct (files W !! p).
  - destruct Hcan as [?|[Hget Hcreate]]; [discriminate|].
    destruct (GetFile (server W) d) as [content e]. cbn [snd fst] in *. subst e.
    destruct (os_Create W p) as [e W1] eqn:Hcr. cbn [fst] in Hcreate. subst e.
    apply os_Create_ok in Hcr as [Hvalid ->].
    eexists. split; [reflexivity|]. split; [by right|].
    split; [by apply os_exists_setFile_eq|].
    cbn [setFile files]. rewrite lookup_insert_eq.
    unfold os_exists in Hex. rewrite Hvalid in Hex. cbn [andb] in Hex.
    apply orb_false_iff in Hex as [Hfile _].
    apply bool_decide_eq_false in Hfile.
    destruct (files W !! p) as [x|]; [|done].
    exfalso. apply Hfile. by eexists.
Qed.

(** A step of the loop leaves alone whatever exists already. *)
Lemma step_keeps_existing W p content q :
  os_exists W p = false -> os_exists W q = true ->
  let W1 := setFile (setFile W p EmptyString) p content in
  files W1 !! q = files W !! q /\ os_exists W1 q = true.
Proof.
  intros Hp Hq W1. assert (q <> p) by congruence.
  subst W1. rewrite os_exists_setFile_ne, os_exists_setFile_ne by done.
  split; [|done]. cbn [setFile files]. by rewrite !lookup_insert_ne.
Qed.

Lemma step_localCopy c W d d' :
  distinctPaths c ->
  is_Some (lookupTable c !! Itoa d) -> is_Some (lookupTable c !! Itoa d') ->
  os_exists W (localPath c d) = false ->
  validPath (localPath c d) = true ->
  let W1 := setFile (setFile W (localPath c d) EmptyString) (localPath c d)
                    (fst (GetFile (server W) d)) in
  localCopy c W1 d' = localCopy c W d'.
Proof.
  intros Hdistinct [name Hname] [name' Hname'] Hex Hvalid W1.
  destruct (decide (localPath c d' = localPath c d)) as [Heq|Hne].
  - assert (d' = d) as ->.
    { apply Itoa_inj. apply (Hdistinct _ _ _ _ Hname' Hname).
      by rewrite <- (localPath_entry _ _ _ Hname), <- (localPath_entry _ _ _ Hname'). }
    unfold localCopy. subst W1. cbn [setFile files server].
    rewrite lookup_insert_eq, Hex.
    unfold os_exists in Hex. rewrite Hvalid in Hex. cbn [andb] in Hex.
    apply orb_false_iff in Hex as [Hfile _].
    apply bool_decide_eq_false in Hfile.
    destruct (files W !! localPath c d) as [x|]; [|done].
    exfalso. apply Hfile. by eexists.
  - unfold localCopy. subst W1.
    rewrite !os_exists_setFile_ne by done.
    cbn [setFile files server]. by rewrite !lookup_insert_ne.
Qed.

Lemma step_fetchable c W d d' :
  os_exists W (localPath c d) = false ->
  validPath (localPath c d) = true ->
  fetchable c W d' ->
  fetchable c (setFile (setFile W (localPath c d) EmptyString) (localPath c d)
                 (fst (GetFile (server W) d))) d'.
Proof.
  intros Hex Hvalid [Hentry Hcan]. split; [done|].
  destruct (decide (localPath c d' = localPath c d)) as [->|Hne].
  - left. by apply os_exists_setFile_eq.
  - rewrite !os_exists_setFile_ne by done.
    rewrite !os_Create_fst_setFile. done.
Qed.

(** The fetching loop on candidates that can all be fetched: it ends
    without error, passes grep the local path of every candidate, and
    leaves at each of these paths the copy that was to be expected when
    the loop started. *)
Lemma fetchAll_fetchable c :
  distinctPaths c ->
  forall ds W,
    (forall d, d ∈ ds -> fetchable c W d) ->
    exists W',
      fetchAll c W ds = (nil, W', map (localPath c) ds)
      /\ (forall p, os_exists W p = true ->
            files W' !! p = files W !! p /\ os_exists W' p = true)
      /\ (forall d', is_Some (lookupTable c !! Itoa d') ->
            localCopy c W' d' = localCopy c W d')
      /\ (forall d, d ∈ ds ->
            files W' !! localPath c d = localCopy c W d
            /\ validPath (localPath c d) = true).
Proof.
  intros Hdistinct. induction ds as [|d ds IH]; intros W Hall.
  - exists W. cbn [fetchAll map]. split; [done|]. split; [done|]. split; [done|].
    by intros d' Hin%elem_of_nil.
  - destruct (getFile_fetchable c W d) as (W1 & Hget & Hstep & Hex1 & Hcopy).
    { apply Hall, list_elem_of_here. }
    assert (Hentry : is_Some (lookupTable c !! Itoa d)).
    { by destruct (Hall d (list_elem_of_here _ _)). }
    assert (Hkeep : forall p, os_exists W p = true ->
              files W1 !! p = files W !! p /\ os_exists W1 p = true).
    { intros p Hp. destruct Hstep as [->|[Hnew ->]]; [done|].
      by apply step_keeps_existing. }
    assert (Hcopies : forall d', is_Some (lookupTable c !! Itoa d') ->
              localCopy c W1 d' = localCopy c W d').
    { intros d' Hd'. destruct Hstep as [->|[Hnew ->]]; [done|].
      apply step_localCopy; [done..|]. exact (os_exists_valid _ _ Hex1). }
    assert (Hall1 : forall d', d' ∈ ds -> fetchable c W1 d').
    { intros d' Hd'. specialize (Hall d' (list_elem_of_further _ _ _ Hd')).
      destruct Hstep as [->|[Hnew ->]]; [done|].
      apply step_fetchable; [done| |done]. exact (os_exists_valid _ _ Hex1). }
    destruct (IH W1 Hall1) as (W' & Hrest & Hkeep' & Hcopies' & Hfiles').
    exists W'. cbn [fetchAll map]. rewrite Hget, Hrest.
    split; [done|]. split; [|split].
    + intros p Hp. destruct (Hkeep p Hp) as [Hf1 Hx1].
      destruct (Hkeep' p Hx1) as [Hf' Hx']. split; [congruence|done].
    + intros d' Hd'. by rewrite Hcopies', Hcopies.
    + intros d0 [->|Hin]%elem_of_cons.
      * destruct (Hkeep' _ Hex1) as [Hf' _]. split; [congruence|].
        by apply os_exists_valid in Hex1.
      * destruct (Hfiles' d0 Hin) as [Hf Hv]. split; [|done].
        rewrite Hf. apply Hcopies. by destruct (Hall1 d0 Hin).
Qed.

Lemma filter_map_ext {A B} (f : A -> B) (P : B -> bool) (Q : A -> bool) (l : list A) :
  (forall x, x ∈ l -> P (f x) = Q x) ->
  List.filter P (map f l) = map f (List.filter Q l).
Proof.
  induction l as [|x l IH]; intros Hext; cbn [map List.filter]; [done|].
  rewrite (Hext x (list_elem_of_here _ _)).
  rewrite IH by (intros y Hy; by apply Hext, list_elem_of_further).
  by destruct (Q x).
Qed.

(** The names [searchWordHelper] returns on candidates that can all be
    fetched: the base names of the local paths of the candidates whose
    copy grep selects. *)
Lemma searchWordHelper_fetchable c W word ds :
  grepLaw -> plainArg word = true ->
  (forall d, d ∈ ds -> plainArg (localPath c d) = true) ->
  distinctPaths c ->
  (forall d, d ∈ ds -> fetchable c W d) ->
  exists rate W',
    searchWordHelper c W word ds
    = (if validPath word
       then map (fun d => snd (GoPath.Split (localPath c d)))
                (List.filter (docMatches c W word) ds)
       else [],
       rate, nil, W').
Proof.
  intros Hlaw Hword Hpaths Hdistinct Hall.
  destruct (fetchAll_fetchable c Hdistinct ds W Hall)
    as (W' & Hfetch & _ & _ & Hfiles).
  rewrite (searchWordHelper_success _ _ _ _ _ _ Hlaw
             (plain_arguments c word ds Hword Hpaths) Hfetch).
  cbn zeta.
  eexists _, W'. f_equal. f_equal. f_equal.
  cbn [forallb]. destruct (validPath word); cbn [andb]; [|done].
  assert (Hvalid : forallb validPath (map (localPath c) ds) = true).
  { apply forallb_forall. intros p Hp%list_elem_of_In.
    apply list_elem_of_fmap in Hp as (d & -> & Hd). by apply Hfiles. }
  rewrite Hvalid.
  rewrite (filter_map_ext _ _ (docMatches c W word)).
  - by rewrite map_map.
  - intros d Hd. unfold grepAccepts, docMatches.
    by destruct (Hfiles d Hd) as [-> _].
Qed.

(** The docIDs [SearchWordNaive] hands to [searchWordHelper] when every
    key is the decimal form of a docID. *)
Lemma isDocKey_spec k :
  isDocKey k = true -> snd (Atoi k) = nil /\ Itoa (fst (Atoi k)) = k.
Proof.
  unfold isDocKey. destruct (Atoi k) as [d [e|]]; [discriminate|].
  intros Hk%bool_decide_eq_true. done.
Qed.

Lemma parseDocIDs_keys keys :
  (forall k, k ∈ keys -> isDocKey k = true) ->
  parseDocIDs keys = Some (map (fun k => fst (Atoi k)) keys).
Proof.
  induction keys as [|k keys IH]; intros Hkeys; cbn [parseDocIDs map]; [done|].
  destruct (isDocKey_spec k (Hkeys k (list_elem_of_here _ _))) as [Herr _].
  destruct (Atoi k) as [d e]. cbn [snd fst] in *. subst e.
  rewrite IH; [done|]. intros k' Hk'. by apply Hkeys, list_elem_of_further.
Qed.

Lemma elem_of_mapRange_keys m k :
  k ∈ map fst (mapRange m) <-> is_Some (m !! k).
Proof.
  rewrite list_elem_of_fmap. split.
  - intros ([k' v] & -> & Hin). rewrite mapRange_perm in Hin.
    apply elem_of_map_to_list in Hin. by exists v.
  - intros [v Hv]. exists (k, v). split; [done|].
    rewrite mapRange_perm. by apply elem_of_map_to_list.
Qed.

Lemma elem_of_naiveDocs c d :
  wfKeys c -> d ∈ naiveDocs c <-> is_Some (lookupTable c !! Itoa d).
Proof.
  intros Hwf. unfold naiveDocs. rewrite list_elem_of_fmap. split.
  - intros (k & -> & Hk%elem_of_mapRange_keys).
    destruct Hk as [name Hname].
    destruct (isDocKey_spec k (Hwf k name Hname)) as [_ Hcanon].
    rewrite Hcanon. by exists name.
  - intros [name Hname]. exists (Itoa d). split.
    + destruct (isDocKey_spec _ (Hwf _ name Hname)) as [_ Hcanon].
      by apply Itoa_inj in Hcanon.
    + apply elem_of_mapRange_keys. by exists name.
Qed.

Lemma elem_of_matching_names c W word ds f :
  f ∈ map (fun d => snd (GoPath.Split (localPath c d)))
          (List.filter (docMatches c W word) ds)
  <-> exists d, f = snd (GoPath.Split (localPath c d))
                /\ d ∈ ds /\ docMatches c W word d = true.
Proof.
  rewrite list_elem_of_fmap. split.
  - intros (d & -> & Hd%list_elem_of_In). apply filter_In in Hd as [Hd Hm].
    exists d. by rewrite list_elem_of_In.
  - intros (d & -> & Hd & Hm). exists d. split; [done|].
    apply list_elem_of_In, filter_In. by rewrite <- list_elem_of_In.
Qed.

(** C8: with grep listing, for a pattern and files, the files that have
    a selected line ([grepLaw]): for a word that does not begin with a
    dash (the word then is the pattern), on a client whose lookup table
    has decimal docIDs for keys, keeps distinct entries in distinct local
    files and has no local path beginning with a dash, when every
    candidate of either search can be fetched and the server's answer
    holds every docID of the lookup table whose copy grep selects for the
    word, [SearchWord] and [SearchWordNaive] both return without error
    and return the same set of file names. *)
Theorem SearchWord_agrees_with_naive (c : Client) (W : World) (word : string) :
  let serverDocs :=
    server_SearchWord (server W) (ComputeTrapdoors prf (indexer c) word) in
  grepLaw ->
  plainArg word = true ->
  (forall d, is_Some (lookupTable c !! Itoa d) -> plainArg (localPath c d) = true) ->
  wfKeys c ->
  distinctPaths c ->
  (forall d, d ∈ serverDocs -> fetchable c W d) ->
  (forall d, is_Some (lookupTable c !! Itoa d) -> fetchable c W d) ->
  (forall d, is_Some (lookupTable c !! Itoa d) ->
             docMatches c W word d = true -> d ∈ serverDocs) ->
  exists filesS rateS WS filesN rateN WN,
    SearchWord c W word = (filesS, rateS, nil, WS)
    /\ SearchWordNaive c W word = (filesN, rateN, nil, WN)
    /\ forall f, f ∈ filesS <-> f ∈ filesN.
Proof.
  intros serverDocs Hlaw Hword Hplain Hwf Hdistinct HfetchS HfetchN Hsuperset.
  assert (HplainS : forall d, d ∈ serverDocs -> plainArg (localPath c d) = true).
  { intros d Hd. apply Hplain. by destruct (HfetchS d Hd). }
  destruct (searchWordHelper_fetchable c W word serverDocs Hlaw Hword HplainS
              Hdistinct HfetchS) as (rateS & WS & HS).
  assert (HfetchN' : forall d, d ∈ naiveDocs c -> fetchable c W d).
  { intros d Hd. by apply HfetchN, elem_of_naiveDocs. }
  assert (HplainN : forall d, d ∈ naiveDocs c -> plainArg (localPath c d) = true).
  { intros d Hd. by apply Hplain, elem_of_naiveDocs. }
  destruct (searchWordHelper_fetchable c W word (naiveDocs c) Hlaw Hword HplainN
              Hdistinct HfetchN') as (rateN & WN & HN).
  eexists _, rateS, WS, _, rateN, WN.
  split; [exact HS|]. split.
  { unfold SearchWordNaive. rewrite parseDocIDs_keys; [exact HN|].
    intros k [name Hname]%elem_of_mapRange_keys. by apply (Hwf k name). }
  intros f. destruct (validPath word); [|done].
  rewrite !elem_of_matching_names. split.
  - intros (d & -> & Hd & Hm). exists d. split; [done|]. split; [|done].
    apply elem_of_naiveDocs; [done|]. by destruct (HfetchS d Hd).
  - intros (d & -> & Hd & Hm). exists d. split; [done|]. split; [|done].
    apply Hsuperset; [|done]. by apply elem_of_naiveDocs.
Qed.

(** *** The keys [AddFile] writes *)

Lemma isDocKey_Itoa d : minInt <= d <= maxInt -> isDocKey (Itoa d) = true.
Proof.
  intros Hrange. unfold isDocKey. rewrite Atoi_Itoa by done.
  by apply bool_decide_eq_true.
Qed.

(** X13: with a server that numbers its documents within [int],
    [AddFile] keeps every key of the lookup table the decimal form of a
    docID, one that [strconv.Atoi] reads back, whatever [AddFile]
    returns. *)
Lemma AddFile_wfKeys c W filename err c1 W1 :
  (forall content,
     minInt <= fst (fst (server_AddFile (server W) content)) <= maxInt) ->
  wfKeys c ->
  AddFile c W filename = (err, c1, W1) ->
  wfKeys c1.
Proof.
  intros Hrange Hwf. unfold AddFile.
  destruct (reverseLookup c !! _) as [?|]; [by intros [= _ <- _]|].
  destruct (ioutil_ReadFile W filename) as [content [?|]]; [by intros [= _ <- _]|].
  specialize (Hrange content).
  destruct (server_AddFile (server W) content) as [[docID [?|]] s1];
    [by intros [= _ <- _]|].
  cbn [fst] in Hrange.
  assert (Hwf1 : forall k name,
            <[Itoa docID := snd (GoPath.Split filename)]> (lookupTable c) !! k
            = Some name -> isDocKey k = true).
  { intros k name Hk. destruct (decide (k = Itoa docID)) as [->|Hne].
    - by apply isDocKey_Itoa.
    - rewrite lookup_insert_ne in Hk by done. by apply (Hwf k name). }
  destruct (json_Marshal _) as [table [?|]]; [by intros [= _ <- _]|].
  destruct (ioutil_ReadFile _ filename) as [infile [?|]]; [by intros [= _ <- _]|].
  destruct (WriteIndex _ _) as [[?|] s3]; [by intros [= _ <- _]|].
  destruct (os_Create _ _) as [[?|] W4]; by intros [= _ <- _].
Qed.

(** *** Checking the hypotheses on a given client *)

Lemma wfKeys_check c :
  forallb isDocKey (map fst (map_to_list (lookupTable c))) = true -> wfKeys c.
Proof.
  intros Hall k name Hname. rewrite forallb_forall in Hall. apply Hall.
  apply list_elem_of_In, list_elem_of_fmap. exists (k, name).
  split; [done|]. by apply elem_of_map_to_list.
Qed.

Lemma distinctPaths_check c :
  NoDup (map (fun kv => GoPath.Join (directory c) (snd kv))
             (map_to_list (lookupTable c))) ->
  distinctPaths c.
Proof.
  intros Hnodup k1 k2 n1 n2 H1 H2 Hjoin.
  apply elem_of_map_to_list, list_elem_of_lookup in H1 as [i Hi].
  apply elem_of_map_to_list, list_elem_of_lookup in H2 as [j Hj].
  assert (i = j) as ->.
  { eapply NoDup_lookup; [exact Hnodup| |].
    - rewrite list_lookup_fmap, Hi. reflexivity.
    - rewrite list_lookup_fmap, Hj. cbn. by rewrite Hjoin. }
  congruence.
Qed.

(** A property of the documents of the lookup table can be checked key
    by key. *)
Lemma forall_docs_by_keys c (P : Z -> Prop) :
  wfKeys c ->
  Forall (fun k => P (fst (Atoi k))) (map fst (map_to_list (lookupTable c))) ->
  forall d, is_Some (lookupTable c !! Itoa d) -> P d.
Proof.
  intros Hwf Hall d [name Hname]. rewrite Forall_forall in Hall.
  destruct (isDocKey_spec _ (Hwf _ _ Hname)) as [_ Hcanon].
  apply Itoa_inj in Hcanon. rewrite <- Hcanon. apply Hall.
  apply list_elem_of_fmap. exists (Itoa d, name).
  split; [done|]. by apply elem_of_map_to_list.
Qed.

#[global] Instance fetchable_dec c W d : Decision (fetchable c W d).
Proof. unfold fetchable. apply _. Defined.

(** *** The tables of the client *)

(** Every entry of the lookup table has its mirror in the reverse
    table. *)
Definition mirrored (c : Client) : Prop :=
  forall id name, lookupTable c !! id = Some name -> reverseLookup c !! name = Some id.

(** The client [AddFile] leaves: the one it was given, or that one with
    the entry of the new document in both tables. *)
Lemma AddFile_client c W filename :
  let file := snd (GoPath.Split filename) in
  let c' := snd (fst (AddFile c W filename)) in
  c' = c
  \/ (reverseLookup c !! file = None
      /\ exists content docID s1,
           ioutil_ReadFile W filename = (content, nil)
           /\ server_AddFile (server W) content = (docID, nil, s1)
           /\ c' = {| directory := directory c; indexer := indexer c;
                      lookupTable := <[Itoa docID := file]> (lookupTable c);
                      reverseLookup := <[file := Itoa docID]> (reverseLookup c) |}).
Proof.
  cbv zeta. unfold AddFile.
  destruct (reverseLookup c !! _) as [?|] eqn:Hguard; [by left|].
  destruct (ioutil_ReadFile W filename) as [content [?|]] eqn:Hread; [by left|].
  destruct (server_AddFile (server W) content) as [[docID [?|]] s1] eqn:Hadd;
    [by left|].
  right. split; [done|]. exists content, docID, s1. split; [done|]. split; [done|].
  destruct (json_Marshal _) as [table [?|]]; [done|].
  destruct (ioutil_ReadFile _ filename) as [infile [?|]]; [done|].
  destruct (WriteIndex _ _) as [[?|] s3]; [done|].
  by destruct (os_Create _ _) as [[?|] W4].
Qed.

(** X7: [AddFile] keeps the two tables in step: when every entry of the
    lookup table has its mirror in the reverse table before the call, so it
    is after it, whatever [AddFile] returns; two docIDs then never share a
    file name. *)
Theorem AddFile_keeps_mirrored (c : Client) (W : World) (filename : string) :
  mirrored c ->
  mirrored (snd (fst (AddFile c W filename)))
  /\ (forall id1 id2 name,
        lookupTable (snd (fst (AddFile c W filename))) !! id1 = Some name ->
        lookupTable (snd (fst (AddFile c W filename))) !! id2 = Some name ->
        id1 = id2).
Proof.
  intros Hmirror.
  assert (Hafter : mirrored (snd (fst (AddFile c W filename)))).
  { destruct (AddFile_client c W filename)
      as [->|(Hguard & content & docID & s1 & _ & _ & ->)]; [done|].
    intros id name. cbn [lookupTable reverseLookup].
    destruct (decide (id = Itoa docID)) as [->|Hne].
    - rewrite lookup_insert_eq. intros [= <-]. by rewrite lookup_insert_eq.
    - rewrite lookup_insert_ne by done. intros Hentry.
      specialize (Hmirror _ _ Hentry).
      rewrite lookup_insert_ne; [done|]. intros <-. congruence. }
  split; [exact Hafter|].
  intros id1 id2 name H1%Hafter H2%Hafter. congruence.
Qed.

Lemma mirrored_check c :
  forallb (fun kv => bool_decide (reverseLookup c !! snd kv = Some (fst kv)))
          (map_to_list (lookupTable c)) = true ->
  mirrored c.
Proof.
  intros Hall id name Hentry. rewrite forallb_forall in Hall.
  apply elem_of_map_to_list, list_elem_of_In, Hall in Hentry.
  by apply bool_decide_eq_true in Hentry.
Qed.

(** What the loop of [CreateClient] leaves under a name: the key of an
    entry with that name, or what was there. *)
Lemma reverse_loop_lookup (entries : list (string * string)) :
  forall (m0 : gmap string string) name id,
  fold_left (fun m kv => <[snd kv := fst kv]> m) entries m0 !! name = Some id ->
  m0 !! name = Some id \/ (id, name) ∈ entries.
Proof.
  induction entries as [|[k v] entries IH]; intros m0 name id; cbn [fold_left];
    [by left|].
  intros [Hfound|Hin]%IH; [|right; by apply list_elem_of_further].
  cbn [fst snd] in Hfound. destruct (decide (v = name)) as [->|Hne].
  - rewrite lookup_insert_eq in Hfound. injection Hfound as ->.
    right. apply list_elem_of_here.
  - rewrite lookup_insert_ne in Hfound by done. by left.
Qed.

Lemma reverse_loop_other (entries : list (string * string)) :
  forall (m0 : gmap string string) name,
  name ∉ map snd entries ->
  fold_left (fun m kv => <[snd kv := fst kv]> m) entries m0 !! name = m0 !! name.
Proof.
  induction entries as [|[k v] entries IH]; intros m0 name Hout; cbn [fold_left];
    [done|].
  cbn [map snd] in Hout. apply not_elem_of_cons in Hout as [Hne Hout].
  rewrite IH by done. cbn [fst snd]. by rewrite lookup_insert_ne.
Qed.

Lemma reverse_loop_mirror (entries : list (string * string)) :
  forall (m0 : gmap string string) name id,
  NoDup (map snd entries) -> (id, name) ∈ entries ->
  fold_left (fun m kv => <[snd kv := fst kv]> m) entries m0 !! name = Some id.
Proof.
  induction entries as [|[k v] entries IH]; intros m0 name id Hnodup Hin;
    cbn [fold_left]; [by apply elem_of_nil in Hin|].
  cbn [map snd] in Hnodup. apply NoDup_cons in Hnodup as [Hv Hnodup].
  apply elem_of_cons in Hin as [[= -> ->]|Hin]; [|by apply IH].
  rewrite reverse_loop_other by done. cbn [fst snd]. by rewrite lookup_insert_eq.
Qed.

(** X8: the reverse table [CreateClient] builds holds nothing but
    mirrors of entries of the lookup table it has read, in whatever order
    [range] visits that table; when no two docIDs of the table share a file
    name, every entry has its mirror. *)
Theorem CreateClient_reverseLookup (W : World) (clientNum : Z) (dir : string)
    (c : Client) (W' : World) :
  CreateClient W clientNum dir = Returned (c, W') ->
  (forall name id, reverseLookup c !! name = Some id -> lookupTable c !! id = Some name)
  /\ ((forall id1 id2 name,
         lookupTable c !! id1 = Some name -> lookupTable c !! id2 = Some name ->
         id1 = id2) ->
      mirrored c).
Proof.
  intros Hcreate.
  assert (Htables :
    reverseLookup c = ∅ /\ lookupTable c = ∅
    \/ reverseLookup c = reverseOf (mapRange (lookupTable c))).
  { unfold CreateClient in Hcreate.
    destruct (ReadLookupTable (server W)) as [tableContent|];
      destruct (os_notExist W dir);
      try (destruct (os_Mkdir W dir) as [[e|] W'']; [discriminate|]);
      injection Hcreate as <- _; cbn [reverseLookup lookupTable]; auto. }
  destruct Htables as [[Hrev Htab]|Hrev].
  { split.
    - intros name id. by rewrite Hrev, lookup_empty.
    - intros _ id name. by rewrite Htab, lookup_empty. }
  split.
  - intros name id. rewrite Hrev. unfold reverseOf.
    intros [Hempty|Hin]%reverse_loop_lookup; [by rewrite lookup_empty in Hempty|].
    rewrite mapRange_perm in Hin. by apply elem_of_map_to_list in Hin.
  - intros Hinj id name Hentry. rewrite Hrev. unfold reverseOf.
    apply reverse_loop_mirror.
    + rewrite mapRange_perm. apply (NoDup_fmap_2_strong snd).
      * intros [k1 v1] [k2 v2] H1%elem_of_map_to_list H2%elem_of_map_to_list.
        cbn [snd]. intros <-. f_equal. by eapply Hinj.
      * apply NoDup_map_to_list.
    + rewrite mapRange_perm. by apply elem_of_map_to_list.
Qed.


(** *** [AddFile], step by step *)

(** X10: [AddFile] does not go back on the upload: once the server has
    taken the document, the entry is in both tables when [AddFile] returns,
    with an error or without, and the same call made again, on whatever
    world, returns the error "file already exists". *)
Theorem AddFile_recorded_once_uploaded (c : Client) (W : World) (filename : string)
    (content : string) (docID : Z) (s1 : Server) :
  reverseLookup c !! snd (GoPath.Split filename) = None ->
  ioutil_ReadFile W filename = (content, nil) ->
  server_AddFile (server W) content = (docID, nil, s1) ->
  let c1 := snd (fst (AddFile c W filename)) in
  lookupTable c1 !! Itoa docID = Some (snd (GoPath.Split filename))
  /\ reverseLookup c1 !! snd (GoPath.Split filename) = Some (Itoa docID)
  /\ forall W2,
       AddFile c1 W2 filename = (errors_New "file already exists", c1, W2).
Proof.
  intros Hguard Hread Hadd c1.
  assert (Hc1 : c1 = {| directory := directory c; indexer := indexer c;
                        lookupTable :=
                          <[Itoa docID := snd (GoPath.Split filename)]> (lookupTable c);
                        reverseLookup :=
                          <[snd (GoPath.Split filename) := Itoa docID]>
                            (reverseLookup c) |}).
  { subst c1. unfold AddFile. rewrite Hguard, Hread, Hadd.
    destruct (json_Marshal _) as [table [?|]]; [done|].
    destruct (ioutil_ReadFile _ filename) as [infile [?|]]; [done|].
    destruct (WriteIndex _ _) as [[?|] s3]; [done|].
    by destruct (os_Create _ _) as [[?|] W4]. }
  assert (Hrev : reverseLookup c1 !! snd (GoPath.Split filename) = Some (Itoa docID)).
  { rewrite Hc1. cbn [reverseLookup]. by rewrite lookup_insert_eq. }
  split; [rewrite Hc1; cbn [lookupTable]; by rewrite lookup_insert_eq|].
  split; [exact Hrev|].
  intros W2. apply AddFile_guard. by eexists.
Qed.

(** What a successful [AddFile] has gone through. *)
Lemma AddFile_success c W filename c1 W1 :
  AddFile c W filename = (nil, c1, W1) ->
  let file := snd (GoPath.Split filename) in
  let dest := GoPath.Join (directory c) file in
  exists content docID srv,
    reverseLookup c !! file = None
    /\ ioutil_ReadFile W filename = (content, nil)
    /\ c1 = {| directory := directory c; indexer := indexer c;
               lookupTable := <[Itoa docID := file]> (lookupTable c);
               reverseLookup := <[file := Itoa docID]> (reverseLookup c) |}
    /\ validPath dest = true
    /\ W1 = setFile (setFile (setServer W srv) dest EmptyString) dest
              (match files (setFile (setServer W srv) dest EmptyString) !! filename with
               | Some data => data
               | None => EmptyString
               end).
Proof.
  cbv zeta. unfold AddFile.
  destruct (reverseLookup c !! _) as [?|] eqn:Hguard; [discriminate|].
  destruct (ioutil_ReadFile W filename) as [content [?|]] eqn:Hread; [discriminate|].
  destruct (server_AddFile (server W) content) as [[docID [?|]] s1]; [discriminate|].
  destruct (json_Marshal _) as [table [?|]]; [discriminate|].
  destruct (ioutil_ReadFile _ filename) as [infile [?|]]; [discriminate|].
  destruct (WriteIndex _ _) as [[?|] s3]; [discriminate|].
  destruct (os_Create _ _) as [[?|] W4] eqn:Hcreate; [discriminate|].
  intros [= <- <-]. cbn [directory] in *.
  apply os_Create_ok in Hcreate as [Hvalid ->].
  exists content, docID, s3. done.
Qed.

Lemma ioutil_ReadFile_ok W p content :
  ioutil_ReadFile W p = (content, nil) ->
  validPath p = true /\ files W !! p = Some content.
Proof.
  unfold ioutil_ReadFile. destruct (validPath p); [|discriminate].
  destruct (files W !! p) as [x|]; [by intros [= ->]|].
  by destruct (bool_decide (p ∈ dirs W)).
Qed.

(** X11: after an [AddFile] that returned no error, the client's
    directory holds the file under its base name, with the content the
    source had, files being told apart by their paths; when the source is
    that very path, the file has been truncated before it is copied and is
    left empty. *)
Theorem AddFile_local_copy (c : Client) (W : World) (filename : string)
    (c1 : Client) (W1 : World) :
  AddFile c W filename = (nil, c1, W1) ->
  let dest := GoPath.Join (directory c) (snd (GoPath.Split filename)) in
  exists content,
    files W !! filename = Some content
    /\ files W1 !! dest
       = Some (if decide (filename = dest) then EmptyString else content)
    /\ os_exists W1 dest = true.
Proof.
  intros Hadd. cbv zeta.
  destruct (AddFile_success _ _ _ _ _ Hadd)
    as (content & docID & srv & _ & Hread & _ & Hvalid & HW1).
  set (dest := GoPath.Join (directory c) (snd (GoPath.Split filename))) in *.
  subst W1. apply ioutil_ReadFile_ok in Hread as [_ Hsrc].
  exists content. split; [done|].
  split; [|by apply os_exists_setFile_eq].
  cbn [setFile setServer files]. rewrite lookup_insert_eq. f_equal.
  destruct (decide (filename = dest)) as [Heq|Hne].
  - rewrite <- Heq. by rewrite lookup_insert_eq.
  - rewrite lookup_insert_ne by done. by rewrite Hsrc.
Qed.

(** X12: what [AddFile] never does: it does not change the client's
    directory or indexer, drops no name from the reverse table, makes or
    removes no directory, and writes no file but the copy in the client's
    directory; when it returns an error, every file is as it was. *)
Theorem AddFile_frame (c : Client) (W : World) (filename : string) :
  let r := AddFile c W filename in
  let dest := GoPath.Join (directory c) (snd (GoPath.Split filename)) in
  directory (snd (fst r)) = directory c
  /\ indexer (snd (fst r)) = indexer c
  /\ reverseLookup c ⊆ reverseLookup (snd (fst r))
  /\ dirs (snd r) = dirs W
  /\ (forall p, p <> dest -> files (snd r) !! p = files W !! p)
  /\ (fst (fst r) <> nil -> files (snd r) = files W).
Proof.
  cbv zeta.
  split; [|split; [|split]].
  1-3: destruct (AddFile_client c W filename)
        as [->|(Hguard & content & docID & s1 & _ & _ & ->)]; [done|];
       cbn [directory indexer reverseLookup]; try done; by apply insert_subseteq.
  unfold AddFile.
  destruct (reverseLookup c !! _) as [?|]; [done|].
  destruct (ioutil_ReadFile W filename) as [content [?|]]; [done|].
  destruct (server_AddFile (server W) content) as [[docID [?|]] s1]; [done|].
  destruct (json_Marshal _) as [table [?|]]; [done|].
  destruct (ioutil_ReadFile _ filename) as [infile [?|]]; [done|].
  destruct (WriteIndex _ _) as [[?|] s3]; [done|].
  destruct (os_Create _ _) as [[?|] W4] eqn:Hcreate; [done|].
  cbn [directory] in *. apply os_Create_ok in Hcreate as [_ ->].
  cbn [fst snd setFile setServer dirs files].
  split; [done|]. split; [|done].
  intros p Hne. by rewrite !lookup_insert_ne.
Qed.

(** *** [getFile] *)

(** X14: what [getFile] never does: it does not change the server or
    the directories, writes at no path but the document's local path, and
    leaves alone whatever exists already; when it returns an error the
    world is as it was, and a docID without an entry in the lookup table is
    refused with "invalid document ID". *)
Theorem getFile_frame (c : Client) (W : World) (d : Z) :
  let r := getFile c W d in
  server (snd r) = server W
  /\ dirs (snd r) = dirs W
  /\ (forall p, p <> localPath c d -> files (snd r) !! p = files W !! p)
  /\ (forall p, os_exists W p = true -> files (snd r) !! p = files W !! p)
  /\ (fst r <> nil -> snd r = W)
  /\ (lookupTable c !! Itoa d = None -> r = (errors_New "invalid document ID", W)).
Proof.
  cbv zeta. unfold getFile, localPath.
  destruct (lookupTable c !! Itoa d) as [name|]; [|done].
  set (p0 := GoPath.Join (directory c) name).
  destruct (os_exists W p0) eqn:Hex; [done|].
  destruct (GetFile (server W) d) as [content [?|]]; [done|].
  destruct (os_Create W p0) as [[?|] W1] eqn:Hcreate; [done|].
  apply os_Create_ok in Hcreate as [_ ->].
  cbn [fst snd setFile server dirs files].
  split; [done|]. split; [done|].
  split; [intros p Hne; by rewrite !lookup_insert_ne|].
  split; [|done].
  intros p Hp. rewrite !lookup_insert_ne; [done|congruence..].
Qed.

(** X15: a document that is not on the disk is downloaded: with an
    entry in the lookup table, nothing at the local path, the document on
    the server and a disk that takes the file, [getFile] returns no error
    and leaves the server's content at the local path; and whenever
    [getFile] has returned no error, the same call made again returns no
    error and changes nothing. *)
Theorem getFile_downloads (c : Client) (W : World) (d : Z) :
  (forall name content,
     lookupTable c !! Itoa d = Some name ->
     os_exists W (GoPath.Join (directory c) name) = false ->
     GetFile (server W) d = (content, nil) ->
     fst (os_Create W (GoPath.Join (directory c) name)) = nil ->
     fst (getFile c W d) = nil
     /\ files (snd (getFile c W d)) !! GoPath.Join (directory c) name = Some content)
  /\ (forall W1, getFile c W d = (nil, W1) -> getFile c W1 d = (nil, W1)).
Proof.
  split.
  - intros name content Hname Hex Hget Hcreate. unfold getFile.
    rewrite Hname, Hex, Hget.
    destruct (os_Create W _) as [[e|] W1] eqn:Hcr; [discriminate|].
    apply os_Create_ok in Hcr as [_ ->]. unfold nil. cbn [fst snd setFile files].
    by rewrite lookup_insert_eq.
  - intros W1. unfold getFile.
    destruct (lookupTable c !! Itoa d) as [name|]; [|discriminate].
    set (p0 := GoPath.Join (directory c) name).
    destruct (os_exists W p0) eqn:Hex.
    { intros [= <-]. by rewrite Hex. }
    destruct (GetFile (server W) d) as [content [?|]]; [discriminate|].
    destruct (os_Create W p0) as [[?|] W2] eqn:Hcreate; [discriminate|].
    apply os_Create_ok in Hcreate as [Hvalid ->]. intros [= <-].
    by rewrite os_exists_setFile_eq.
Qed.

(** X16: a file that [AddFile] has added is not downloaded: its docID
    is in both tables, and [getFile] on it returns no error and leaves the
    world as it is. *)
Theorem AddFile_then_getFile (c : Client) (W : World) (filename : string)
    (c1 : Client) (W1 : World) :
  AddFile c W filename = (nil, c1, W1) ->
  exists docID,
    reverseLookup c1 !! snd (GoPath.Split filename) = Some (Itoa docID)
    /\ lookupTable c1 !! Itoa docID = Some (snd (GoPath.Split filename))
    /\ getFile c1 W1 docID = (nil, W1).
Proof.
  intros Hadd.
  destruct (AddFile_success _ _ _ _ _ Hadd)
    as (content & docID & srv & _ & _ & -> & Hvalid & ->).
  exists docID. cbn [reverseLookup lookupTable]. rewrite !lookup_insert_eq.
  split; [done|]. split; [done|].
  unfold getFile. cbn [lookupTable directory]. rewrite lookup_insert_eq.
  by rewrite os_exists_setFile_eq.
Qed.

(** *** The searches *)

Lemma fetchAll_unknown c d : forall ds W,
  d ∈ ds -> lookupTable c !! Itoa d = None ->
  exists e W', fst (fetchAll c W ds) = (Some e, W').
Proof.
  induction ds as [|d0 ds IH]; intros W Hin Hnone; [by apply elem_of_nil in Hin|].
  cbn [fetchAll].
  destruct (getFile c W d0) as [[e|] W1] eqn:Hget; [by eexists _, _|].
  apply elem_of_cons in Hin as [->|Hin].
  { unfold getFile in Hget. rewrite Hnone in Hget. discriminate. }
  destruct (IH W1 Hin Hnone) as (e & W' & Hrest).
  destruct (fetchAll c W1 ds) as [[err W2] args]. cbn [fst] in *.
  injection Hrest as -> ->. by eexists _, _.
Qed.

(** X17: a candidate without an entry in the lookup table fails the
    whole search: [searchWordHelper] returns an error and no file name,
    whatever the other candidates hold; so does [SearchWord] when the
    server's answer names a docID the client does not know. *)
Theorem search_unknown_candidate (c : Client) (W : World) (word : string) (d : Z) :
  lookupTable c !! Itoa d = None ->
  (forall ds, d ∈ ds ->
     exists e W', searchWordHelper c W word ds = ([], Float64.zero, Some e, W'))
  /\ (d ∈ server_SearchWord (server W) (ComputeTrapdoors prf (indexer c) word) ->
      exists e W', SearchWord c W word = ([], Float64.zero, Some e, W')).
Proof.
  intros Hnone.
  assert (Hhelper : forall ds, d ∈ ds ->
            exists e W', searchWordHelper c W word ds = ([], Float64.zero, Some e, W')).
  { intros ds Hin. destruct (fetchAll_unknown c d ds W Hin Hnone) as (e & W' & Hrun).
    unfold searchWordHelper.
    destruct (fetchAll c W ds) as [[err W2] args]. cbn [fst] in Hrun.
    injection Hrun as -> ->. by eexists _, _. }
  split; [exact Hhelper|]. intros Hin. by apply Hhelper.
Qed.

Lemma fetchAll_entries c : forall ds W W' args,
  fetchAll c W ds = (nil, W', args) ->
  forall d, d ∈ ds -> is_Some (lookupTable c !! Itoa d).
Proof.
  induction ds as [|d0 ds IH]; intros W W' args Hrun d Hin;
    [by apply elem_of_nil in Hin|].
  cbn [fetchAll] in Hrun.
  destruct (getFile c W d0) as [[e|] W1] eqn:Hget; [discriminate|].
  destruct (fetchAll c W1 ds) as [[err W2] args'] eqn:Hrest.
  injection Hrun as -> -> <-.
  apply elem_of_cons in Hin as [->|Hin]; [|by eapply IH].
  unfold getFile in Hget. by destruct (lookupTable c !! Itoa d0).
Qed.

(** X18: with grep listing, for a pattern and files, the files that have
    a selected line ([grepLaw]): when neither the word nor the local path
    of a candidate begins with a dash (grep then reads the word as its
    pattern and the paths as files), every name [searchWordHelper]
    returns is the base name of the local path of a candidate that has an
    entry in the lookup table and whose file, as the search leaves it on
    the disk, has a line that grep selects for the word; there are no
    more names than candidates. *)
Theorem searchWordHelper_sound (c : Client) (W : World) (word : string)
    (ds : list Z) (names : list string) (rate : float64) (W' : World) :
  grepLaw ->
  plainArg word = true ->
  (forall d, d ∈ ds -> plainArg (localPath c d) = true) ->
  searchWordHelper c W word ds = (names, rate, nil, W') ->
  (forall f, f ∈ names ->
     exists d content,
       d ∈ ds
       /\ is_Some (lookupTable c !! Itoa d)
       /\ f = snd (GoPath.Split (localPath c d))
       /\ files W' !! localPath c d = Some content
       /\ grepMatch word content = true)
  /\ (List.length names <= List.length ds)%nat.
Proof.
  intros Hlaw Hword Hpaths Hrun.
  split; [|by eapply searchWordHelper_count].
  destruct (fetchAll c W ds) as [[[e|] W1] args] eqn:Hfetch.
  { unfold searchWordHelper in Hrun. rewrite Hfetch in Hrun. discriminate. }
  pose proof (fetchAll_entries _ _ _ _ _ Hfetch) as Hentries.
  pose proof (fetchAll_args _ _ _ _ _ Hfetch) as Hargs. subst args.
  rewrite (searchWordHelper_success _ _ _ _ _ _ Hlaw
             (plain_arguments c word ds Hword Hpaths) Hfetch) in Hrun.
  cbv zeta in Hrun. injection Hrun as <- _ <-.
  intros f Hf. apply list_elem_of_fmap in Hf as (p & -> & Hp).
  match type of Hp with context [if ?b then _ else _] => destruct b end;
    [|by apply elem_of_nil in Hp].
  apply list_elem_of_In, filter_In in Hp as [Hp Hgrep].
  apply list_elem_of_In, list_elem_of_fmap in Hp as (d & -> & Hd).
  unfold grepAccepts in Hgrep.
  destruct (files W1 !! localPath c d) as [content|] eqn:Hfile; [|discriminate].
  exists d, content. split; [done|]. split; [by apply Hentries|]. done.
Qed.

Lemma parseDocIDs_bad_key keys k :
  k ∈ keys -> snd (Atoi k) <> nil -> parseDocIDs keys = None.
Proof.
  induction keys as [|k0 keys IH]; intros Hin Hbad; [by apply elem_of_nil in Hin|].
  cbn [parseDocIDs]. destruct (Atoi k0) as [d0 [e|]] eqn:Hk0; [done|].
  apply elem_of_cons in Hin as [->|Hin].
  { rewrite Hk0 in Hbad. by destruct Hbad. }
  by rewrite IH.
Qed.

(** X19: one key of the lookup table that [strconv.Atoi] rejects fails
    every naive search: [SearchWordNaive] returns the error "invalid docID:
    not a number" and no file name, and fetches nothing, in whatever order
    [range] visits the table. *)
Theorem SearchWordNaive_bad_key (c : Client) (W : World) (word : string)
    (k name : string) :
  lookupTable c !! k = Some name ->
  snd (Atoi k) <> nil ->
  SearchWordNaive c W word
  = ([], Float64.zero, errors_New "invalid docID: not a number", W).
Proof.
  intros Hentry Hbad. unfold SearchWordNaive.
  rewrite (parseDocIDs_bad_key _ k); [done| |done].
  apply elem_of_mapRange_keys. by exists name.
Qed.

(** X20: [SearchWord] filters the server's answer.  With grep listing,
    for a pattern and files, the files that have a selected line
    ([grepLaw]): when the word holds no NUL byte and does not begin with
    a dash, no candidate's local path begins with a dash, distinct
    entries of the lookup table are kept in distinct local files and
    every candidate can be fetched, it returns no error and the base
    names of the local paths of exactly the candidates whose copy grep
    selects, in the order of the server's answer, and leaves every file
    that existed as it was. *)
Theorem SearchWord_filters_candidates (c : Client) (W : World) (word : string) :
  let serverDocs :=
    server_SearchWord (server W) (ComputeTrapdoors prf (indexer c) word) in
  grepLaw ->
  validPath word = true ->
  plainArg word = true ->
  (forall d, d ∈ serverDocs -> plainArg (localPath c d) = true) ->
  distinctPaths c ->
  (forall d, d ∈ serverDocs -> fetchable c W d) ->
  exists rate W',
    SearchWord c W word
    = (map (fun d => snd (GoPath.Split (localPath c d)))
           (List.filter (docMatches c W word) serverDocs),
       rate, nil, W')
    /\ (forall p, os_exists W p = true -> files W' !! p = files W !! p).
Proof.
  intros serverDocs Hlaw Hword Hplain Hpaths Hdistinct Hall.
  destruct (searchWordHelper_fetchable c W word serverDocs Hlaw Hplain Hpaths
              Hdistinct Hall) as (rate & W' & Hrun).
  rewrite Hword in Hrun. exists rate, W'. split; [exact Hrun|].
  destruct (fetchAll_fetchable c Hdistinct serverDocs W Hall)
    as (W'' & Hfetch & Hkeep & _ & _).
  unfold searchWordHelper in Hrun. rewrite Hfetch in Hrun.
  injection Hrun as _ _ ->. intros p Hp. by apply Hkeep.
Qed.

(** X21: what [SearchWordNaive] finds does not depend on the order in
    which [range] visits the lookup table.  With grep listing, for a
    pattern and files, the files that have a selected line ([grepLaw]):
    when the word holds no NUL byte and does not begin with a dash, the
    keys are decimal docIDs, distinct entries are kept in distinct local
    files, none of which has a path beginning with a dash, and every
    document of the table can be fetched, it returns no error, and a name
    is returned exactly when it is the base name of the local path of a
    document of the table whose copy grep selects for the word. *)
Theorem SearchWordNaive_finds_matching (c : Client) (W : World) (word : string) :
  grepLaw ->
  validPath word = true ->
  plainArg word = true ->
  (forall d, is_Some (lookupTable c !! Itoa d) -> plainArg (localPath c d) = true) ->
  wfKeys c ->
  distinctPaths c ->
  (forall d, is_Some (lookupTable c !! Itoa d) -> fetchable c W d) ->
  exists names rate W',
    SearchWordNaive c W word = (names, rate, nil, W')
    /\ forall f, f ∈ names <->
         exists d, is_Some (lookupTable c !! Itoa d)
                   /\ docMatches c W word d = true
                   /\ f = snd (GoPath.Split (localPath c d)).
Proof.
  intros Hlaw Hword Hplain Hpaths Hwf Hdistinct Hall.
  assert (Hall' : forall d, d ∈ naiveDocs c -> fetchable c W d).
  { intros d Hd. by apply Hall, elem_of_naiveDocs. }
  assert (Hpaths' : forall d, d ∈ naiveDocs c -> plainArg (localPath c d) = true).
  { intros d Hd. by apply Hpaths, elem_of_naiveDocs. }
  destruct (searchWordHelper_fetchable c W word (naiveDocs c) Hlaw Hplain Hpaths'
              Hdistinct Hall') as (rate & W' & Hrun).
  rewrite Hword in Hrun. eexists _, rate, W'. split.
  { unfold SearchWordNaive. rewrite parseDocIDs_keys; [exact Hrun|].
    intros k [name Hname]%elem_of_mapRange_keys. by apply (Hwf k name). }
  intros f. rewrite elem_of_matching_names. split.
  - intros (d & -> & Hd & Hm). exists d. by rewrite <- elem_of_naiveDocs.
  - intros (d & Hd & Hm & ->). exists d. by rewrite elem_of_naiveDocs.
Qed.

(** *** [GetFilenames] *)

Lemma GetFilenames_canonical c :
  GetFilenames c = GoSort.Strings (map fst (map_to_list (reverseLookup c))).
Proof.
  unfold GetFilenames. apply GoSort.Strings_perm. by rewrite mapRange_perm.
Qed.

Lemma GetFilenames_perm c :
  GetFilenames c ≡ₚ map fst (map_to_list (reverseLookup c)).
Proof.
  rewrite GetFilenames_canonical. unfold GoSort.Strings.
  apply merge_sort_Permutation.
Qed.

(** X22: [GetFilenames] returns the names of the reverse table, each
    once, in increasing order, and the same list in whatever order [range]
    visits the table. *)
Theorem GetFilenames_sorted_names (c : Client) :
  Sorted GoSort.string_le (GetFilenames c)
  /\ NoDup (GetFilenames c)
  /\ (forall f, f ∈ GetFilenames c <-> is_Some (reverseLookup c !! f))
  /\ List.length (GetFilenames c) = size (reverseLookup c)
  /\ GetFilenames c = GoSort.Strings (map fst (map_to_list (reverseLookup c))).
Proof.
  split; [apply Sorted_merge_sort; apply _|].
  split; [rewrite GetFilenames_perm; apply NoDup_fst_map_to_list|].
  split; [|split; [|apply GetFilenames_canonical]].
  - intros f. rewrite GetFilenames_perm, list_elem_of_fmap. split.
    + intros ([f' id] & -> & Hin%elem_of_map_to_list). by exists id.
    + intros [id Hid]. exists (f, id). split; [done|]. by apply elem_of_map_to_list.
  - rewrite GetFilenames_perm, length_map. apply length_map_to_list.
Qed.

(** X23: after an [AddFile] that returned no error, [GetFilenames]
    lists the base name of the file besides the names it listed before;
    an [AddFile] stopped by its guard or by the missing source file leaves
    the list as it was. *)
Theorem AddFile_then_GetFilenames (c : Client) (W : World) (filename : string) :
  let r := AddFile c W filename in
  (fst (fst r) = nil ->
   GetFilenames (snd (fst r)) ≡ₚ snd (GoPath.Split filename) :: GetFilenames c)
  /\ (is_Some (reverseLookup c !! snd (GoPath.Split filename))
      \/ snd (ioutil_ReadFile W filename) <> nil ->
      GetFilenames (snd (fst r)) = GetFilenames c).
Proof.
  cbv zeta. split.
  - intros Hok.
    destruct (AddFile c W filename) as [[e c1] W1] eqn:Hadd. cbn [fst snd] in *.
    subst e.
    destruct (AddFile_success _ _ _ _ _ Hadd)
      as (content & docID & srv & Hguard & _ & -> & _ & _).
    rewrite !GetFilenames_perm. cbn [reverseLookup].
    rewrite map_to_list_insert by done. done.
  - intros Hstop. f_equal. unfold AddFile.
    destruct (reverseLookup c !! _) as [?|]; [done|].
    destruct (ioutil_ReadFile W filename) as [content [?|]]; [done|].
    destruct Hstop as [[? ?]|Hstop]; [done|]. by destruct Hstop.
Qed.

(** *** A client from its creation on *)

(** A client adding files one after the other, whatever each call
    returns. *)
Definition addEach (cw : Client * World) (filenames : list string) : Client * World :=
  fold_left (fun cw f => let r := AddFile (fst cw) (snd cw) f in (snd (fst r), snd r))
            filenames cw.

Lemma addEach_tables filenames : forall c W,
  mirrored c ->
  let c' := fst (addEach (c, W) filenames) in
  mirrored c'
  /\ directory c' = directory c
  /\ (forall f, is_Some (reverseLookup c' !! f) ->
        is_Some (reverseLookup c !! f)
        \/ f ∈ map (fun p => snd (GoPath.Split p)) filenames).
Proof.
  induction filenames as [|p filenames IH]; intros c W Hmirror; cbn [addEach fold_left].
  { cbv zeta. cbn [fst]. auto. }
  cbn [fst snd].
  set (c1 := snd (fst (AddFile c W p))). set (W1 := snd (AddFile c W p)).
  assert (Hmirror1 : mirrored c1).
  { by destruct (AddFile_keeps_mirrored c W p Hmirror). }
  destruct (IH c1 W1 Hmirror1) as (Hm & Hdir & Hnames). fold (addEach (c1, W1) filenames).
  split; [exact Hm|]. split.
  - rewrite Hdir. subst c1.
    by destruct (AddFile_client c W p) as [->|(_ & content & docID & s1 & _ & _ & ->)].
  - intros f [Hf|Hf]%Hnames; [|right; cbn [map]; by apply list_elem_of_further].
    subst c1.
    destruct (AddFile_client c W p) as [Heq|(_ & content & docID & s1 & _ & _ & Heq)];
      rewrite Heq in Hf; [by left|].
    cbn [reverseLookup] in Hf.
    destruct (decide (f = snd (GoPath.Split p))) as [->|Hne].
    + right. cbn [map]. apply list_elem_of_here.
    + rewrite lookup_insert_ne in Hf by done. by left.
Qed.

(** X24: a client created on a server that holds no lookup table yet,
    whatever files it then adds and whatever the calls return: every entry
    of its lookup table has its mirror in the reverse table, its directory
    is the one it was created with, and [GetFilenames] lists nothing but
    base names of the paths it was asked to add. *)
Theorem fresh_client_tables (W : World) (clientNum : Z) (dir : string)
    (c : Client) (W' : World) (filenames : list string) :
  ReadLookupTable (server W) = None ->
  CreateClient W clientNum dir = Returned (c, W') ->
  let c' := fst (addEach (c, W') filenames) in
  mirrored c'
  /\ directory c' = dir
  /\ (forall f, f ∈ GetFilenames c' ->
        f ∈ map (fun p => snd (GoPath.Split p)) filenames).
Proof.
  intros Hnone Hcreate.
  assert (Hfresh : lookupTable c = ∅ /\ reverseLookup c = ∅ /\ directory c = dir).
  { unfold CreateClient in Hcreate. rewrite Hnone in Hcreate.
    destruct (os_notExist W dir);
      try (destruct (os_Mkdir W dir) as [[e|] W'']; [discriminate|]);
      by injection Hcreate as <- _. }
  destruct Hfresh as (Htable & Hreverse & Hdir).
  assert (Hmirror : mirrored c).
  { intros id name. by rewrite Htable, lookup_empty. }
  destruct (addEach_tables filenames c W' Hmirror) as (Hm & Hd & Hnames).
  cbv zeta. split; [exact Hm|]. split; [by rewrite Hd|].
  intros f Hf.
  assert (Hin : is_Some (reverseLookup (fst (addEach (c, W') filenames)) !! f)).
  { rewrite GetFilenames_perm, list_elem_of_fmap in Hf.
    destruct Hf as ([f' id] & -> & Hin%elem_of_map_to_list). by exists id. }
  apply Hnames in Hin as [[id Hid]|Hin]; [|done].
  by rewrite Hreverse, lookup_empty in Hid.
Qed.

End WithEnvironment.

(** *** A server, a disk and a grep to run the client on *)

(** The server keeps the master secret its key halves combine to, the
    folder's store, the documents in the order they arrived and the
    lookup table last written. *)
Record ModelServer := mkModelServer {
  ms_secret : bytes;
  ms_store : Store.IndexStore;
  ms_documents : list string;
  ms_table : option bytes
}.

Definition xorBytes (a b : bytes) (n : nat) : bytes :=
  zip_with (fun x y => byte_of_Z (Z.lxor (byte_to_Z x) (byte_to_Z y)))
           (take n a) (take n b).

#[global] Instance ModelServer_interface : ServerInterface ModelServer := {|
  GetKeyHalf s clientNum :=
    xorBytes (Sha256.sum256 (list_byte_of_string (Itoa clientNum)))
             (ms_secret s) (List.length (ms_secret s));
  GetSalts s := Store.st_salts (ms_store s);
  GetSize s := Store.st_size (ms_store s);
  ReadLookupTable s := ms_table s;
  server_AddFile s content :=
    (Z.of_nat (List.length (ms_documents s)), nil,
     {| ms_secret := ms_secret s; ms_store := ms_store s;
        ms_documents := ms_documents s ++ [content]; ms_table := ms_table s |});
  WriteLookupTable s table :=
    {| ms_secret := ms_secret s; ms_store := ms_store s;
       ms_documents := ms_documents s; ms_table := Some table |};
  WriteIndex s si :=
    (nil, {| ms_secret := ms_secret s; ms_store := Store.write_index si (ms_store s);
             ms_documents := ms_documents s; ms_table := ms_table s |});
  GetFile s docID :=
    if Z.ltb docID 0 then (EmptyString, errors_New "no such document")
    else match ms_documents s !! Z.to_nat docID with
         | Some content => (content, nil)
         | None => (EmptyString, errors_New "no such document")
         end;
  server_SearchWord s trapdoor :=
    elements (snd (Store.search Sha256.size (ms_store s) trapdoor))
|}.

(** The lookup table as a JSON object, keys in increasing order; names
    with quotes or backslashes are not escaped. *)
Fixpoint insertSorted (kv : string * string) (l : list (string * string))
    : list (string * string) :=
  match l with
  | [] => [kv]
  | kv' :: rest =>
      if String.leb (fst kv) (fst kv') then kv :: l else kv' :: insertSorted kv rest
  end.

Definition dquote : ascii := ascii_of_nat 34.

Definition quoted (x : string) : string :=
  String dquote (x +:+ String dquote EmptyString).

Definition marshalTable (m : gmap string string) : bytes * error :=
  let entries := fold_right insertSorted [] (map_to_list m) in
  (list_byte_of_string
     (String "{"
        (GoStrings.Join
           (map (fun kv => quoted (fst kv) +:+ ":" +:+ quoted (snd kv)) entries) ","
         +:+ "}")),
   nil).

(** Up to the next quote, and what follows it. *)
Fixpoint readQuoted (s : string) : option (string * string) :=
  match s with
  | EmptyString => None
  | String a s' =>
      if Ascii.eqb a dquote then Some (EmptyString, s')
      else match readQuoted s' with
           | Some (x, rest) => Some (String a x, rest)
           | None => None
           end
  end.

Fixpoint readEntries (fuel : nat) (s : string) (m : gmap string string)
    : gmap string string :=
  match fuel, s with
  | S fuel', String q s1 =>
      if Ascii.eqb q dquote then
        match readQuoted s1 with
        | Some (k, String colon (String q' s2)) =>
            if (Ascii.eqb colon ":" && Ascii.eqb q' dquote)%bool then
              match readQuoted s2 with
              | Some (v, String sep s3) =>
                  if Ascii.eqb sep "," then readEntries fuel' s3 (<[k := v]> m)
                  else <[k := v]> m
              | _ => m
              end
            else m
        | _ => m
        end
      else m
  | _, _ => m
  end.

Definition unmarshalTable (content : bytes) (m : gmap string string)
    : gmap string string :=
  match string_of_list_byte content with
  | String "{" s => readEntries (String.length s) s m
  | _ => m
  end.

(** A literal word between characters that are no letters, digits or
    underscores. *)
Definition is_word_char (a : ascii) : bool :=
  let n := nat_of_ascii a in
  ((Nat.leb 48 n && Nat.leb n 57) || (Nat.leb 65 n && Nat.leb n 90)
   || (Nat.leb 97 n && Nat.leb n 122) || Nat.eqb n 95)%bool.

Fixpoint strip_prefix (w s : string) : option string :=
  match w, s with
  | EmptyString, _ => Some s
  | String a w', String b s' => if Ascii.eqb a b then strip_prefix w' s' else None
  | String _ _, EmptyString => None
  end.

Definition boundary (rest : string) : bool :=
  match rest with
  | EmptyString => true
  | String b _ => negb (is_word_char b)
  end.

Fixpoint scan_word (after_word_char : bool) (w s : string) : bool :=
  (negb after_word_char
   && match strip_prefix w s with Some rest => boundary rest | None => false end)
  || match s with
     | EmptyString => false
     | String a s' => scan_word (is_word_char a) w s'
     end.

Definition grep_w (word content : string) : bool :=
  match word with
  | EmptyString => false
  | _ => scan_word false word content
  end.

Example grep_w_values :
  (grep_w "test" "This is a test file.", grep_w "file" "a test file.",
   grep_w "est" "a test file", grep_w "another" "This is yet another test file")
  = (true, true, false, true).
Proof. reflexivity. Qed.

Example table_round_trip :
  unmarshalTable (fst (marshalTable (<["1" := "b.txt"]> (<["0" := "a.txt"]> ∅)))) ∅
  = <["1" := "b.txt"]> (<["0" := "a.txt"]> ∅).
Proof. vm_compute. reflexivity. Qed.

Definition never (p : string) : bool := false.

(** The lines of a file as grep reads them: a final newline ends the
    last line and starts no other. *)
Definition lines (content : string) : list string :=
  let pieces := GoStrings.Split content (ascii_of_nat 10) in
  match last pieces with
  | Some EmptyString => removelast pieces
  | _ => pieces
  end.

(** With [-v], grep lists a file when it has a line that the pattern does
    not select. *)
Definition grepOmits (W : @World ModelServer) (pattern p : string) : bool :=
  match files W !! p with
  | Some content => existsb (fun line => negb (grep_w pattern line)) (lines content)
  | None => false
  end.

(** A grep for the examples.  Started with [-lZw], a pattern and paths,
    none of them beginning with a dash, it lists the files [grep_w]
    selects, as [grepLaw] asks.  Of the options a word can be taken for it
    knows [-v] alone: the argument after it is then the pattern, the rest
    are the files, and the files listed are those with a line the pattern
    does not select; without a pattern grep reports its usage and writes
    nothing.  On any other arguments this stand-in writes nothing, and no
    example below starts it on such arguments. *)
Definition grepProcess (W : @World ModelServer) (args : list string) : string :=
  match args with
  | flags :: word :: paths =>
      if negb (String.eqb flags "-lZw") then EmptyString
      else if forallb plainArg (word :: paths) then
        terminated (List.filter (grepAccepts grep_w W word) paths)
      else if String.eqb word "-v" then
        match paths with
        | pattern :: rest =>
            if forallb plainArg (pattern :: rest)
            then terminated (List.filter (grepOmits W pattern) rest)
            else EmptyString
        | [] => EmptyString
        end
      else EmptyString
  | _ => EmptyString
  end.

Lemma grepProcess_law : grepLaw grepProcess grep_w.
Proof.
  intros W word paths Hplain. unfold grepProcess.
  change (String.eqb "-lZw" "-lZw") with true. cbn [negb]. by rewrite Hplain.
Qed.

Example lines_values :
  (lines "", lines "a", lines "a b
", lines "a
b", lines "
")
  = ([], ["a"], ["a b"], ["a"; "b"], [""])%string.
Proof. reflexivity. Qed.

(** The server of the tests, created with two salts, 4096 bits and an
    eight-byte master secret. *)
Definition testServer : ModelServer :=
  {| ms_secret := [x10; x32; x54; x76; x98; xba; xdc; xfe];
     ms_store := Store.mkIndexStore testSalts 4096 ∅ [];
     ms_documents := []; ms_table := None |}.

Definition testWorld (s : ModelServer) (fs : list (string * string)) : World :=
  {| server := s; files := list_to_map fs; dirs := {["/tmp"; "/tmp/cli"]} |}.

Definition addFile :=
  AddFile Sha256.hmac 8 padWord64 marshalTable never.
Definition createClient :=
  CreateClient xorBytes unmarshalTable never (fun m => map_to_list m).
Definition searchWord := SearchWord Sha256.hmac never grepProcess.
Definition searchWordNaive :=
  SearchWordNaive never grepProcess (fun m => map_to_list m).

Definition testBuilder8 : SecureIndexBuilder :=
  CreateSecureIndexBuilder (ms_secret testServer) testSalts 4096.

Definition emptyClient (dir : string) : Client := mkClient dir testBuilder8 ∅ ∅.

Definition clientOf (clientNum : Z) (dir : string) : Client :=
  match createClient (testWorld testServer []) clientNum dir with
  | Returned (c, _) => c
  | Panicked => emptyClient dir
  end.

Definition addFiles (c : Client) (W : World) (names : list string)
    : error * Client * World :=
  fold_left (fun '(e, c, W) f =>
               match e with None => addFile c W f | Some _ => (e, c, W) end)
            names (nil, c, W).

(** The five documents of [TestSearchWord]. *)
Definition testFiles : list (string * string) :=
  [ ("/tmp/testFile0", "This is a simple test file");
    ("/tmp/testFile1", "This is another test file");
    ("/tmp/testFile2", "This is a different test file");
    ("/tmp/testFile3", "This is yet another test file");
    ("/tmp/testFile4", "This is the last test file") ]%string.

Definition afterFive : error * Client * World :=
  addFiles (clientOf 0 "/tmp/cli") (testWorld testServer testFiles) (map fst testFiles).
Definition client5 : Client := snd (fst afterFive).
Definition world5 : World := snd afterFive.

(** [TestCreateClient]: clients 0 and 1 of one server. *)
Example test_CreateClient :
  lookupTable (clientOf 0 "/tmp/cli0") = lookupTable (clientOf 1 "/tmp/cli1")
  /\ ComputeTrapdoors Sha256.hmac (indexer (clientOf 0 "/tmp/cli0")) "testing"
     = ComputeTrapdoors Sha256.hmac (indexer (clientOf 1 "/tmp/cli1")) "testing".
Proof. split; vm_compute; reflexivity. Qed.

(** [TestAddFile]. *)
Example test_AddFile :
  let W0 := testWorld testServer testFiles in
  let '(err1, c1, W1) := addFile (clientOf 0 "/tmp/cli") W0 "/tmp/testFile0" in
  let '(err2, c2, W2) := addFile c1 W1 "/tmp/testFile0" in
  err1 = nil /\ err2 = errors_New "file already exists"
  /\ lookupTable c2 !! "0" = Some "testFile0"
  /\ reverseLookup c2 !! "testFile0" = Some "0"
  /\ GetFile (server W2) 0 = ("This is a simple test file", nil)
  /\ server_SearchWord (server W2) (ComputeTrapdoors Sha256.hmac (indexer c2) "simple")
     = [0]
  /\ files W2 !! "/tmp/cli/testFile0" = Some "This is a simple test file".
Proof. vm_compute. repeat split; reflexivity. Qed.

(** [TestSearchWord] and [TestSearchWordNaive], from a second client that
    reads the lookup table off the server and has no local copies. *)
Example test_SearchWord :
  match createClient (testWorld (server world5) []) 1 "/tmp/cli2" with
  | Returned (c2, W2) =>
      fst (fst (fst (searchWord c2 W2 "another"))) = ["testFile3"; "testFile1"]
      /\ fst (fst (fst (searchWord c2 W2 "non-existing"))) = []
      /\ fst (fst (fst (searchWordNaive c2 W2 "another"))) = ["testFile3"; "testFile1"]
      /\ fst (fst (fst (searchWordNaive c2 W2 "non-existing"))) = []
      /\ fst (fst (fst (searchWord c2 W2 "file")))
         ≡ₚ ["testFile0"; "testFile1"; "testFile2"; "testFile3"; "testFile4"]
      /\ fst (fst (fst (searchWordNaive c2 W2 "file")))
         ≡ₚ ["testFile0"; "testFile1"; "testFile2"; "testFile3"; "testFile4"]
  | Panicked => False
  end.
Proof.
  vm_compute. repeat split; try reflexivity.
  all: apply (bool_decide_unpack _); vm_compute; exact I.
Qed.

(** Clients 0 and 1 of [TestCreateClient], created in two directories. *)
Lemma ComputeTrapdoors_same_for_clients_witness :
  ComputeTrapdoors Sha256.hmac (indexer (clientOf 0 "/tmp/cli0")) "testing"
  = ComputeTrapdoors Sha256.hmac (indexer (clientOf 1 "/tmp/cli1")) "testing".
Proof.
  set (W := testWorld testServer []).
  assert (H0 : createClient W 0 "/tmp/cli0"
               = Returned (clientOf 0 "/tmp/cli0",
                           {| server := testServer; files := ∅;
                              dirs := {["/tmp/cli0"]} ∪ dirs W |}))
    by (vm_compute; reflexivity).
  assert (H1 : createClient W 1 "/tmp/cli1"
               = Returned (clientOf 1 "/tmp/cli1",
                           {| server := testServer; files := ∅;
                              dirs := {["/tmp/cli1"]} ∪ dirs W |}))
    by (vm_compute; reflexivity).
  assert (Hms : xorBytes (Sha256.sum256 (list_byte_of_string (Itoa 0)))
                  (GetKeyHalf testServer 0) (List.length (GetKeyHalf testServer 0))
                = xorBytes (Sha256.sum256 (list_byte_of_string (Itoa 1)))
                    (GetKeyHalf testServer 1) (List.length (GetKeyHalf testServer 1)))
    by (vm_compute; reflexivity).
  exact (proj2 (proj2 (ComputeTrapdoors_same_for_clients Sha256.hmac xorBytes
                         unmarshalTable never (fun m => map_to_list m)))
           W W 0 1 "/tmp/cli0"%string "/tmp/cli1"%string _ _ _ _ "testing"%string
           H0 H1 eq_refl Hms).
Defined.

Lemma AddFile_already_exists_witness :
  let W0 := testWorld testServer testFiles in
  let first := addFile (clientOf 0 "/tmp/cli") W0 "/tmp/testFile0" in
  addFile (snd (fst first)) (snd first) "/tmp/testFile0"
  = (errors_New "file already exists", snd (fst first), snd first).
Proof.
  intros W0 first.
  apply (proj2 (AddFile_already_exists Sha256.hmac 8 padWord64 marshalTable never)
           (clientOf 0 "/tmp/cli") W0 "/tmp/testFile0"
           (snd (fst first)) (snd first) (snd first)).
  vm_compute. reflexivity.
Defined.

(** The search for "file" in [TestSearchWord]: every document holds the
    word, and the rate that the test discards is NaN. *)
Lemma fp_rate_unguarded_witness :
  let result := searchWord client5 world5 "file" in
  List.length (fst (fst (fst result))) = size (lookupTable client5)
  /\ Float64.is_finite (snd (fst (fst result))) = false
  /\ snd (fst (fst result)) = Float64.NaN.
Proof.
  intros result.
  destruct (fp_rate_unguarded never grepProcess grep_w (fun m => map_to_list m)
              (fun m => reflexivity _)) as (_ & Hzero & _).
  assert (Hrun : searchWordHelper never grepProcess client5 world5 "file"
                   (server_SearchWord (server world5)
                      (ComputeTrapdoors Sha256.hmac (indexer client5) "file"))
                 = (fst (fst (fst result)), snd (fst (fst result)), nil, snd result))
    by (vm_compute; reflexivity).
  assert (Hall : List.length (fst (fst (fst result))) = size (lookupTable client5))
    by (vm_compute; reflexivity).
  pose proof (Hzero _ _ _ _ _ _ _ Hrun Hall) as Hfinite.
  split; [exact Hall|]. split; [exact Hfinite|]. vm_compute. reflexivity.
Defined.

Lemma SearchWord_agrees_with_naive_witness :
  exists filesS rateS WS filesN rateN WN,
    searchWord client5 world5 "another" = (filesS, rateS, nil, WS)
    /\ searchWordNaive client5 world5 "another" = (filesN, rateN, nil, WN)
    /\ forall f, f ∈ filesS <-> f ∈ filesN.
Proof.
  assert (Hwf : wfKeys client5) by (apply wfKeys_check; vm_compute; reflexivity).
  apply (SearchWord_agrees_with_naive Sha256.hmac never grepProcess grep_w
           (fun m => map_to_list m) (fun m => reflexivity _)
           client5 world5 "another").
  - exact grepProcess_law.
  - reflexivity.
  - apply (forall_docs_by_keys _ _ Hwf). apply (bool_decide_unpack _).
    vm_compute. exact I.
  - exact Hwf.
  - apply distinctPaths_check. apply (bool_decide_unpack _). vm_compute. exact I.
  - apply Forall_forall. apply (bool_decide_unpack _). vm_compute. exact I.
  - apply (forall_docs_by_keys _ _ Hwf). apply (bool_decide_unpack _).
    vm_compute. exact I.
  - apply (forall_docs_by_keys client5
             (fun d => docMatches grep_w client5 world5 "another" d = true -> d ∈ _)
             Hwf).
    apply (bool_decide_unpack _). vm_compute. exact I.
Defined.

(** Two short documents, added by a client that pads its indexes to two
    words, and the server they leave. *)
Definition pairFiles : list (string * string) :=
  [ ("/tmp/d/a.txt", "alpha beta"); ("/tmp/d/b.txt", "beta gamma") ]%string.

Definition pairAdded : error * Client * World :=
  let add := AddFile Sha256.hmac 2 padWord64 marshalTable never in
  let first := add (emptyClient "/tmp/cli") (testWorld testServer pairFiles)
                 "/tmp/d/a.txt" in
  add (snd (fst first)) (snd first) "/tmp/d/b.txt".

Definition pairServer : ModelServer := Eval vm_compute in server (snd pairAdded).

Example pairServer_built :
  fst (fst pairAdded) = nil /\ server (snd pairAdded) = pairServer.
Proof. split; vm_compute; reflexivity. Qed.

(** *** Where the two searches part *)

(** A lookup table with a key that is no number: the document of key
    "0" holds the word, its local copy is in place and the server names
    it, yet the naive search stops on the key "x". *)
Definition keyWorld : World :=
  snd (addFile (emptyClient "/tmp/cli")
         (testWorld testServer [("/tmp/b.txt", "hello world")]%string) "/tmp/b.txt").

Definition keyClient : Client :=
  mkClient "/tmp/cli" testBuilder8
    (<["x" := "a.txt"]> (<["0" := "b.txt"]> ∅))
    (<["a.txt" := "x"]> (<["b.txt" := "0"]> ∅)).

(** Two entries of the lookup table with one local file: the documents 0
    ("hello") and 1 ("bye") were added by two clients under the name "a". *)
Definition sharedWorld : World :=
  let W0 := testWorld testServer [("/tmp/x/a", "hello"); ("/tmp/y/a", "bye")]%string in
  let W1 := snd (addFile (emptyClient "/tmp/cliA") W0 "/tmp/x/a") in
  let W2 := snd (addFile (emptyClient "/tmp/cliB") W1 "/tmp/y/a") in
  testWorld (server W2) [].

Definition sharedClient : Client :=
  mkClient "/tmp/cli" testBuilder8
    (<["1" := "a"]> (<["0" := "a"]> ∅)) (<["a" := "1"]> ∅).

(** A word that grep reads as an option: a client that knows the two
    documents of [pairServer] and has both files in its directory
    searches for "-v". *)
Definition dashClient : Client :=
  mkClient "/tmp/cli" testBuilder8
    (<["1" := "b.txt"]> (<["0" := "a.txt"]> ∅))
    (<["b.txt" := "1"]> (<["a.txt" := "0"]> ∅)).

Definition dashWorld : World :=
  testWorld pairServer
    [("/tmp/cli/a.txt", "alpha beta"); ("/tmp/cli/b.txt", "beta gamma")]%string.

(** C8 as stated, for every client state and every word, fails.  With a
    key that is no number in the lookup table, [SearchWord] returns the
    file of the document that holds the word while [SearchWordNaive]
    returns an error and no file; with two entries kept in one local file,
    the file holds whichever document was fetched first, and the two
    searches fetch in different orders.  In both cases the server's answer
    names the one document that holds the word and nothing fails to
    download.  And for the word "-v", on a client with decimal keys and
    the two documents in two local files: no document holds the word and
    the server names none, so [SearchWord] starts grep on [-lZw -v] alone
    and returns no file, while [SearchWordNaive] starts it on [-lZw -v]
    and the two local paths, here [/tmp/cli/b.txt /tmp/cli/a.txt]: grep
    takes the first path for its pattern and lists the other file, which
    has a line without it. *)
Lemma searches_differ :
  (server_SearchWord (server keyWorld)
     (ComputeTrapdoors Sha256.hmac (indexer keyClient) "hello") = [0]
   /\ files keyWorld !! "/tmp/cli/b.txt" = Some "hello world"
   /\ searchWord keyClient keyWorld "hello"
      = (["b.txt"], Float64.zero, nil, keyWorld)
   /\ searchWordNaive keyClient keyWorld "hello"
      = ([], Float64.zero, errors_New "invalid docID: not a number", keyWorld))
  /\ (server_SearchWord (server sharedWorld)
        (ComputeTrapdoors Sha256.hmac (indexer sharedClient) "hello") = [0]
      /\ ms_documents (server sharedWorld) = ["hello"; "bye"]
      /\ fst (searchWord sharedClient sharedWorld "hello")
         = (["a"], Float64.zero, nil)
      /\ fst (fst (fst (searchWordNaive sharedClient sharedWorld "hello"))) = []
      /\ snd (fst (searchWordNaive sharedClient sharedWorld "hello")) = nil)
  /\ (ms_documents (server dashWorld) = ["alpha beta"; "beta gamma"]
      /\ server_SearchWord (server dashWorld)
           (ComputeTrapdoors Sha256.hmac (indexer dashClient) "-v") = []
      /\ docMatches grep_w dashClient dashWorld "-v" 0 = false
      /\ docMatches grep_w dashClient dashWorld "-v" 1 = false
      /\ fst (searchWord dashClient dashWorld "-v") = ([], Float64.zero, nil)
      /\ fst (searchWordNaive dashClient dashWorld "-v")
         = (["a.txt"], Float64.div (Float64.of_int 1) (Float64.of_int 1), nil))%string.
Proof. vm_compute. repeat split; reflexivity. Qed.

(** A local copy that differs from the server's document: document 0 is
    "bye" on the server, whose answer for "hello" is empty, while the
    file found in the client's directory holds the word. *)
Definition staleWorld : World :=
  let W0 := testWorld testServer [("/tmp/y/a.txt", "bye")]%string in
  let W1 := snd (addFile (emptyClient "/tmp/cliB") W0 "/tmp/y/a.txt") in
  testWorld (server W1) [("/tmp/cli/a.txt", "hello there")]%string.

Definition staleClient : Client :=
  mkClient "/tmp/cli" testBuilder8 (<["0" := "a.txt"]> ∅) (<["a.txt" := "0"]> ∅).

Example stale_local_copy :
  GetFile (server staleWorld) 0 = ("bye", nil)
  /\ server_SearchWord (server staleWorld)
       (ComputeTrapdoors Sha256.hmac (indexer staleClient) "hello") = []
  /\ fst (fst (fst (searchWord staleClient staleWorld "hello"))) = []
  /\ fst (fst (fst (searchWordNaive staleClient staleWorld "hello"))) = ["a.txt"].
Proof. vm_compute. repeat split; reflexivity. Qed.

(** *** The properties above on the tests' server *)

(** What a call returned, for a call that has returned. *)
Definition has_returned {A} (o : outcome A) : bool :=
  match o with Returned _ => true | Panicked => false end.

Definition returned_or {A} (o : outcome A) (a : A) : A :=
  match o with Returned x => x | Panicked => a end.

Lemma Returned_pair {A B} (o : outcome (A * B)) (a : A * B) :
  has_returned o = true ->
  o = Returned (fst (returned_or o a), snd (returned_or o a)).
Proof. by destruct o as [[x y]|]. Qed.

Lemma AddFile_result {A B} (r : error * A * B) (e : error) :
  fst (fst r) = e -> r = (e, snd (fst r), snd r).
Proof. destruct r as [[e0 a] b]. by intros <-. Qed.

Lemma search_result {A B C} (r : A * B * error * C) (e : error) :
  snd (fst r) = e -> r = (fst (fst (fst r)), snd (fst (fst r)), e, snd r).
Proof. destruct r as [[[a b] e0] c]. by intros <-. Qed.

(** The server once the five documents of [TestSearchWord] are on it. *)
Definition fiveServer : ModelServer := Eval vm_compute in server world5.

(** [range] visiting a table from its last entry to its first. *)
Definition backwards (m : gmap string string) : list (string * string) :=
  reverse (map_to_list m).

Lemma backwards_perm m : backwards m ≡ₚ map_to_list m.
Proof. apply reverse_Permutation. Qed.

(** A second client, created once the five documents are on the server:
    it reads the lookup table off the server and has no file of its
    own. *)
Definition second : Client * World :=
  returned_or (CreateClient xorBytes unmarshalTable never backwards
                 (testWorld fiveServer []) 1 "/tmp/cli2")
              (emptyClient "/tmp/cli2", testWorld fiveServer []).
Definition client2 : Client := fst second.
Definition world2 : World := snd second.

(** A client that reads the lookup table off that server, on a disk of
    its own. *)
Definition pairReader : Client * World :=
  returned_or (createClient (testWorld pairServer []) 1 "/tmp/cli2")
              (emptyClient "/tmp/cli2", testWorld pairServer []).

Lemma AddFile_keeps_mirrored_witness :
  let first := addFile (emptyClient "/tmp/cli") (testWorld testServer testFiles)
                 "/tmp/testFile0" in
  let c2 := snd (fst (addFile (snd (fst first)) (snd first) "/tmp/testFile1")) in
  mirrored c2
  /\ (forall id1 id2 name,
        lookupTable c2 !! id1 = Some name -> lookupTable c2 !! id2 = Some name ->
        id1 = id2).
Proof.
  intros first.
  apply (AddFile_keeps_mirrored Sha256.hmac 8 padWord64 marshalTable never
           (snd (fst first)) (snd first) "/tmp/testFile1").
  apply mirrored_check. vm_compute. reflexivity.
Defined.

Lemma CreateClient_reverseLookup_witness :
  (forall name id,
     reverseLookup client2 !! name = Some id -> lookupTable client2 !! id = Some name)
  /\ ((forall id1 id2 name,
         lookupTable client2 !! id1 = Some name ->
         lookupTable client2 !! id2 = Some name -> id1 = id2) ->
      mirrored client2).
Proof.
  assert (Hreturned :
    has_returned (CreateClient xorBytes unmarshalTable never backwards
                    (testWorld fiveServer []) 1 "/tmp/cli2") = true)
    by (vm_compute; reflexivity).
  exact (CreateClient_reverseLookup xorBytes unmarshalTable never backwards
           backwards_perm (testWorld fiveServer []) 1 "/tmp/cli2"
           client2 world2
           (Returned_pair _ (emptyClient "/tmp/cli2", testWorld fiveServer [])
              Hreturned)).
Defined.

(** A disk that takes no new file: [AddFile] fails at its last step,
    after the document has gone to the server. *)
Lemma AddFile_recorded_once_uploaded_witness :
  let W0 := testWorld testServer testFiles in
  let add := AddFile Sha256.hmac 8 padWord64 marshalTable (fun _ => true) in
  let r := add (emptyClient "/tmp/cli") W0 "/tmp/testFile0" in
  fst (fst r) = errors_New "cannot create"
  /\ lookupTable (snd (fst r)) !! "0" = Some "testFile0"
  /\ add (snd (fst r)) (snd r) "/tmp/testFile0"
     = (errors_New "file already exists", snd (fst r), snd r).
Proof.
  intros W0 add r.
  destruct (AddFile_recorded_once_uploaded Sha256.hmac 8 padWord64 marshalTable
              (fun _ => true) (emptyClient "/tmp/cli") W0 "/tmp/testFile0"
              "This is a simple test file" 0
              (snd (server_AddFile (server W0) "This is a simple test file")))
    as (Hentry & _ & Hagain); [vm_compute; reflexivity..|].
  split; [vm_compute; reflexivity|]. split; [exact Hentry|]. exact (Hagain (snd r)).
Defined.

Lemma AddFile_local_copy_witness :
  let W0 := testWorld testServer testFiles in
  let W1 := snd (addFile (emptyClient "/tmp/cli") W0 "/tmp/testFile0") in
  let dest := GoPath.Join "/tmp/cli" (snd (GoPath.Split "/tmp/testFile0")) in
  exists content,
    files W0 !! "/tmp/testFile0" = Some content
    /\ files W1 !! dest
       = Some (if decide ("/tmp/testFile0" = dest) then EmptyString else content)
    /\ os_exists W1 dest = true.
Proof.
  intros W0 W1 dest.
  assert (Hadded : fst (fst (addFile (emptyClient "/tmp/cli") W0 "/tmp/testFile0"))
                   = nil) by (vm_compute; reflexivity).
  exact (AddFile_local_copy Sha256.hmac 8 padWord64 marshalTable never
           (emptyClient "/tmp/cli") W0 "/tmp/testFile0" _ _
           (AddFile_result (addFile (emptyClient "/tmp/cli") W0 "/tmp/testFile0")
              nil Hadded)).
Defined.

(** A file added from the client's own directory is emptied: the copy
    truncates the file it is about to read; the server has the
    content. *)
Example AddFile_in_place :
  let W := testWorld testServer [("/tmp/cli/a.txt", "hello world")]%string in
  let r := addFile (emptyClient "/tmp/cli") W "/tmp/cli/a.txt" in
  fst (fst r) = nil
  /\ files (snd r) !! "/tmp/cli/a.txt" = Some EmptyString
  /\ GetFile (server (snd r)) 0 = ("hello world"%string, nil).
Proof. vm_compute. repeat split; reflexivity. Qed.

Lemma AddFile_wfKeys_witness :
  wfKeys (snd (fst (addFile (emptyClient "/tmp/cli") (testWorld testServer testFiles)
                      "/tmp/testFile0"))).
Proof.
  set (r := addFile (emptyClient "/tmp/cli") (testWorld testServer testFiles)
              "/tmp/testFile0").
  apply (AddFile_wfKeys Sha256.hmac 8 padWord64 marshalTable never
           (emptyClient "/tmp/cli") (testWorld testServer testFiles) "/tmp/testFile0"
           (fst (fst r)) (snd (fst r)) (snd r)).
  - intros content. vm_compute. split; discriminate.
  - apply wfKeys_check. vm_compute. reflexivity.
  - change (r = (fst (fst r), snd (fst r), snd r)). clearbody r.
    by destruct r as [[e c1] W1].
Defined.

Lemma getFile_downloads_witness :
  fst (getFile never client2 world2 0) = nil
  /\ files (snd (getFile never client2 world2 0))
       !! GoPath.Join (directory client2) "testFile0"
     = Some "This is a simple test file"%string.
Proof.
  apply (proj1 (getFile_downloads never client2 world2 0)
           "testFile0" "This is a simple test file"%string);
    vm_compute; reflexivity.
Defined.

Lemma AddFile_then_getFile_witness :
  let r := addFile (emptyClient "/tmp/cli") (testWorld testServer testFiles)
             "/tmp/testFile0" in
  exists docID,
    reverseLookup (snd (fst r)) !! snd (GoPath.Split "/tmp/testFile0")
    = Some (Itoa docID)
    /\ lookupTable (snd (fst r)) !! Itoa docID
       = Some (snd (GoPath.Split "/tmp/testFile0"))
    /\ getFile never (snd (fst r)) (snd r) docID = (nil, snd r).
Proof.
  intros r.
  assert (Hadded : fst (fst r) = nil) by (vm_compute; reflexivity).
  exact (AddFile_then_getFile Sha256.hmac 8 padWord64 marshalTable never
           (emptyClient "/tmp/cli") (testWorld testServer testFiles) "/tmp/testFile0"
           _ _ (AddFile_result r nil Hadded)).
Defined.

(** A client that has not read the lookup table since the two
    documents were added: the server's answer names documents it does not
    know. *)
Lemma search_unknown_candidate_witness :
  exists e W',
    searchWord (emptyClient "/tmp/cli3") (testWorld pairServer []) "beta"
    = ([], Float64.zero, Some e, W').
Proof.
  destruct (search_unknown_candidate Sha256.hmac never grepProcess
              (emptyClient "/tmp/cli3") (testWorld pairServer []) "beta" 1)
    as [_ Hsearch]; [vm_compute; reflexivity|].
  apply Hsearch. apply (bool_decide_unpack _). vm_compute. exact I.
Defined.

Lemma searchWordHelper_sound_witness :
  let ds := [0; 1; 3] in
  let r := searchWordHelper never grepProcess client2 world2 "another" ds in
  (forall f, f ∈ fst (fst (fst r)) ->
     exists d content,
       d ∈ ds
       /\ is_Some (lookupTable client2 !! Itoa d)
       /\ f = snd (GoPath.Split (localPath client2 d))
       /\ files (snd r) !! localPath client2 d = Some content
       /\ grep_w "another" content = true)
  /\ (List.length (fst (fst (fst r))) <= List.length ds)%nat.
Proof.
  intros ds r.
  assert (Hfound : snd (fst r) = nil) by (vm_compute; reflexivity).
  assert (Hpaths : forall d, d ∈ ds -> plainArg (localPath client2 d) = true).
  { apply Forall_forall. apply (bool_decide_unpack _). vm_compute. exact I. }
  exact (searchWordHelper_sound never grepProcess grep_w client2 world2 "another" ds
           _ _ _ grepProcess_law eq_refl Hpaths (search_result r nil Hfound)).
Defined.

Lemma SearchWordNaive_bad_key_witness :
  SearchWordNaive never grepProcess backwards keyClient keyWorld "hello"
  = ([], Float64.zero, errors_New "invalid docID: not a number", keyWorld).
Proof.
  apply (SearchWordNaive_bad_key never grepProcess backwards backwards_perm
           keyClient keyWorld "hello" "x" "a.txt").
  - vm_compute. reflexivity.
  - vm_compute. discriminate.
Defined.

Lemma SearchWord_filters_candidates_witness :
  let c := fst pairReader in
  let W := snd pairReader in
  exists rate W',
    searchWord c W "alpha"
    = (map (fun d => snd (GoPath.Split (localPath c d)))
           (List.filter (docMatches grep_w c W "alpha")
              (server_SearchWord (server W)
                 (ComputeTrapdoors Sha256.hmac (indexer c) "alpha"))),
       rate, nil, W')
    /\ (forall p, os_exists W p = true -> files W' !! p = files W !! p).
Proof.
  apply (SearchWord_filters_candidates Sha256.hmac never grepProcess grep_w
           (fst pairReader) (snd pairReader) "alpha").
  - exact grepProcess_law.
  - reflexivity.
  - reflexivity.
  - apply Forall_forall. apply (bool_decide_unpack _). vm_compute. exact I.
  - apply distinctPaths_check. apply (bool_decide_unpack _). vm_compute. exact I.
  - apply Forall_forall. apply (bool_decide_unpack _). vm_compute. exact I.
Defined.

(** The search of the witness: the one document that holds the word. *)
Example test_pairReader :
  server_SearchWord pairServer
    (ComputeTrapdoors Sha256.hmac (indexer (fst pairReader)) "alpha") = [0]
  /\ fst (fst (fst (searchWord (fst pairReader) (snd pairReader) "alpha"))) = ["a.txt"]%string
  /\ fst (fst (fst (searchWord (fst pairReader) (snd pairReader) "beta")))
     ≡ₚ ["a.txt"; "b.txt"]%string.
Proof.
  vm_compute. repeat split; try reflexivity.
  apply (bool_decide_unpack _). vm_compute. exact I.
Qed.

Lemma SearchWordNaive_finds_matching_witness :
  exists names rate W',
    SearchWordNaive never grepProcess backwards client2 world2 "another"
    = (names, rate, nil, W')
    /\ forall f, f ∈ names <->
         exists d, is_Some (lookupTable client2 !! Itoa d)
                   /\ docMatches grep_w client2 world2 "another" d = true
                   /\ f = snd (GoPath.Split (localPath client2 d)).
Proof.
  assert (Hwf : wfKeys client2) by (apply wfKeys_check; vm_compute; reflexivity).
  apply (SearchWordNaive_finds_matching never grepProcess grep_w backwards
           backwards_perm client2 world2 "another").
  - exact grepProcess_law.
  - reflexivity.
  - reflexivity.
  - apply (forall_docs_by_keys _ _ Hwf). apply (bool_decide_unpack _).
    vm_compute. exact I.
  - exact Hwf.
  - apply distinctPaths_check. apply (bool_decide_unpack _). vm_compute. exact I.
  - apply (forall_docs_by_keys _ _ Hwf). apply (bool_decide_unpack _).
    vm_compute. exact I.
Defined.

Lemma GetFilenames_sorted_names_witness :
  Sorted GoSort.string_le (GetFilenames backwards client5)
  /\ NoDup (GetFilenames backwards client5)
  /\ (forall f, f ∈ GetFilenames backwards client5
                <-> is_Some (reverseLookup client5 !! f))
  /\ List.length (GetFilenames backwards client5) = size (reverseLookup client5)
  /\ GetFilenames backwards client5
     = GoSort.Strings (map fst (map_to_list (reverseLookup client5))).
Proof. apply (GetFilenames_sorted_names backwards backwards_perm client5). Defined.

(** [GetFilenames] after the five documents of [TestSearchWord]. *)
Example test_GetFilenames :
  GetFilenames backwards client5
  = ["testFile0"; "testFile1"; "testFile2"; "testFile3"; "testFile4"]%string.
Proof. vm_compute. reflexivity. Qed.

Lemma AddFile_then_GetFilenames_witness :
  let W0 := testWorld testServer testFiles in
  let r := addFile (emptyClient "/tmp/cli") W0 "/tmp/testFile0" in
  GetFilenames backwards (snd (fst r))
  ≡ₚ snd (GoPath.Split "/tmp/testFile0") :: GetFilenames backwards (emptyClient "/tmp/cli").
Proof.
  intros W0 r.
  apply (AddFile_then_GetFilenames Sha256.hmac 8 padWord64 marshalTable never
           backwards backwards_perm (emptyClient "/tmp/cli") W0 "/tmp/testFile0").
  vm_compute. reflexivity.
Defined.

(** The client of the tests from its creation to the fifth document. *)
Lemma fresh_client_tables_witness :
  let W0 := testWorld testServer testFiles in
  let created := CreateClient xorBytes unmarshalTable never backwards W0 0 "/tmp/cli" in
  let cw := returned_or created (emptyClient "/tmp/cli", W0) in
  let c' := fst (addEach Sha256.hmac 8 padWord64 marshalTable never
                   (fst cw, snd cw) (map fst testFiles)) in
  mirrored c'
  /\ directory c' = "/tmp/cli"%string
  /\ (forall f, f ∈ GetFilenames backwards c' ->
        f ∈ map (fun p => snd (GoPath.Split p)) (map fst testFiles)).
Proof.
  intros W0 created cw.
  assert (Hnone : ReadLookupTable (server W0) = None) by (vm_compute; reflexivity).
  assert (Hreturned : has_returned created = true) by (vm_compute; reflexivity).
  exact (fresh_client_tables Sha256.hmac 8 padWord64 xorBytes marshalTable
           unmarshalTable never never backwards backwards_perm
           W0 0 "/tmp/cli" _ _ (map fst testFiles) Hnone
           (Returned_pair created (emptyClient "/tmp/cli", W0) Hreturned)).
Defined.

End Client.
